(** * The omnishard mock router and its test sinks

    A shallow embedding of [exporter/omnishard/mock_server.go] (the
    server side of the OmniShard export protocol, as used by the
    exporter's tests) and of the test utilities of the same Go package
    (the encoder sink and the polling helper [WaitForN]), followed by
    the properties the specification states about them.

    Conventions of the embedding:
    - a Go pointer to a protobuf message that may be nil is an [option];
    - a nil or empty Go map is the empty [gmap];
    - a []byte is an [option (list byte)]: [None] is the nil slice;
    - Go's [int] and [time.Duration] are 64-bit: they are integers of
      [Z] with the wrap-around written out ([wrap64]);
    - the mutexes only serialise accesses; the embedding is sequential,
      one RPC at a time, and does not mention them;
    - a handler either returns a value, returns an error, or panics on
      a nil dereference ([outcome]). *)

From Stdlib Require Import ZArith QArith List String Strings.Byte Lia.
From stdpp Require Import base option list gmap strings.

Local Open Scope Z_scope.

Module omnishard.

(** ** Machine integers *)

(** A 64-bit two's complement integer: Go's [int] on the platforms the
    collector is built for, [int64] and [time.Duration]. *)
Definition wrap64 (z : Z) : Z := (z + 2 ^ 63) mod 2 ^ 64 - 2 ^ 63.

(** ** Protocol messages (package omnishardpb) *)

(** Modelled from the spec: the generated protobuf package
    [exporter/omnishard/gen] is not among the sources. The messages have
    the fields the code reads ([ShardId], [StartingHashKey],
    [EndingHashKey], [ShardDefinitions], [Shard], [Record],
    [ResultCode], [ShardingConfig], [SpanCount], [PartitionKey]); the
    spec gives [shard_id] and [span_count] as integers and names the
    record's payload. The fields [Record] and [ShardingConfig] carry a
    trailing underscore: the first is a keyword here, the second is the
    name of the message type. *)
Record ShardDefinition : Type := {
  ShardId : Z;
  StartingHashKey : option (list byte);
  EndingHashKey : option (list byte)
}.

Record ShardingConfig : Type := {
  ShardDefinitions : list ShardDefinition
}.

Record EncodedRecord : Type := {
  PartitionKey : string;
  SpanCount : Z;
  Payload : list byte
}.

Record ExportRequest : Type := {
  Shard : option ShardDefinition;
  Record_ : option EncodedRecord
}.

(** Modelled from the spec: the result codes are [OK] and
    [SHARD_CONFIG_MISMATCH]; the code spells the second one
    [ExportResponse_SHARD_CONFIG_MISTMATCH]. *)
Inductive ExportResponse_ResultCode : Type :=
| ExportResponse_OK
| ExportResponse_SHARD_CONFIG_MISTMATCH.

Record ExportResponse : Type := {
  ResultCode : ExportResponse_ResultCode;
  ShardingConfig_ : option ShardingConfig
}.

(** ** Errors *)

(** gRPC status codes (google.golang.org/grpc/codes). *)
Inductive codes_Code : Type :=
| codes_OK | codes_Canceled | codes_Unknown | codes_InvalidArgument
| codes_DeadlineExceeded | codes_NotFound | codes_AlreadyExists
| codes_PermissionDenied | codes_ResourceExhausted
| codes_FailedPrecondition | codes_Aborted | codes_OutOfRange
| codes_Unimplemented | codes_Internal | codes_Unavailable
| codes_DataLoss | codes_Unauthenticated.

(** The error values the server builds: [errors.New msg], [fmt.Errorf]
    with the header format and its three arguments, and the error of a
    gRPC status with a [RetryInfo] detail (its delay in nanoseconds). *)
Inductive error : Type :=
| errors_New (msg : string)
| fmt_Errorf (format : string) (k v : string) (vals : list string)
| status_Err (c : codes_Code) (msg : string) (retryDelayNanos : Z).

(** [status.Code]: the code of a status error; an error that carries no
    status is reported as [Unknown]. *)
Definition status_Code (e : error) : codes_Code :=
  match e with
  | status_Err c _ _ => c
  | errors_New _ | fmt_Errorf _ _ _ _ => codes_Unknown
  end.

(** ** Hash keys *)

(** [bytes.Compare]: lexicographic comparison of byte strings, the bytes
    taken as unsigned; the result is -1, 0 or +1. *)
Fixpoint bytes_Compare (a b : list byte) : Z :=
  match a, b with
  | [], [] => 0
  | [], _ :: _ => -1
  | _ :: _, [] => 1
  | x :: a', y :: b' =>
      match N.compare (Byte.to_N x) (Byte.to_N y) with
      | Lt => -1
      | Gt => 1
      | Eq => bytes_Compare a' b'
      end
  end.

Definition compareHashKey (k1 k2 : option (list byte)) : Z :=
  let k1 := match k1 with None => [] | Some k => k end in
  let k2 := match k2 with None => [] | Some k => k end in
  bytes_Compare k1 k2.

(** The loop of [shardIsPartOfConfig]. [None] is the run-time panic of
    [shard.ShardId] on a nil [shard]. *)
Fixpoint shardIsPartOfConfig_range (shard : option ShardDefinition)
    (defs : list ShardDefinition) : option bool :=
  match defs with
  | [] => Some false
  | s :: rest =>
      match shard with
      | None => None
      | Some sh =>
          if (ShardId s =? ShardId sh) &&
             (compareHashKey (StartingHashKey s) (StartingHashKey sh) =? 0) &&
             (compareHashKey (EndingHashKey s) (EndingHashKey sh) =? 0)
          then Some true
          else shardIsPartOfConfig_range shard rest
      end
  end.

(** [None] also when [config] is nil: [config.ShardDefinitions] panics. *)
Definition shardIsPartOfConfig (shard : option ShardDefinition)
    (config : option ShardingConfig) : option bool :=
  match config with
  | None => None
  | Some c => shardIsPartOfConfig_range shard (ShardDefinitions c)
  end.

(** ** The mock server *)

(** [mockServerSink]: the requests and records the server received. *)
Record mockServerSink : Type := {
  requests : list ExportRequest;
  records : list (option EncodedRecord)
}.

(** [mockServer]. The [*grpc.Server] handle [s] and [configMutex] are
    transport and locking and are left out. *)
Record mockServer : Type := {
  Sink : mockServerSink;
  RandomServerError : bool;
  nextResponseCode : ExportResponse_ResultCode;
  nextResponseShardingConfig : option ShardingConfig;
  config : option ShardingConfig
}.

(** [mss.onReceive]: both slices grow by one. *)
Definition mockServerSink_onReceive (mss : mockServerSink)
    (request : ExportRequest) : mockServerSink :=
  {| requests := requests mss ++ [request];
     records := records mss ++ [Record_ request] |}.

Definition GetRecords (mss : mockServerSink) : list (option EncodedRecord) :=
  records mss.

Definition set_Sink (srv : mockServer) (k : mockServerSink) : mockServer :=
  {| Sink := k;
     RandomServerError := RandomServerError srv;
     nextResponseCode := nextResponseCode srv;
     nextResponseShardingConfig := nextResponseShardingConfig srv;
     config := config srv |}.

Definition set_config (srv : mockServer) (c : option ShardingConfig) : mockServer :=
  {| Sink := Sink srv;
     RandomServerError := RandomServerError srv;
     nextResponseCode := nextResponseCode srv;
     nextResponseShardingConfig := nextResponseShardingConfig srv;
     config := c |}.

(** [newMockServer]: every field has its zero value but [config], which
    points to an empty [ShardingConfig]. The zero value of the result
    code is taken to be [OK], the code of a successful export. *)
Definition newMockServer : mockServer :=
  {| Sink := {| requests := []; records := [] |};
     RandomServerError := false;
     nextResponseCode := ExportResponse_OK;
     nextResponseShardingConfig := None;
     config := Some {| ShardDefinitions := [] |} |}.

(** *** Handlers as state transformers

    The [gRPCServer] holds a pointer to the shared [mockServer]; here the
    pointee is the state threaded through a handler. A handler returns a
    value, returns an error, or panics. *)
Inductive outcome (A : Type) : Type :=
| Return (a : A)
| Fail (e : error)
| Panic.
Arguments Return {A} a.
Arguments Fail {A} e.
Arguments Panic {A}.

Definition rpc (A : Type) : Type := mockServer -> outcome A * mockServer.

#[global] Instance rpc_ret : MRet rpc := fun A a srv => (Return a, srv).

#[global] Instance rpc_bind : MBind rpc := fun A B f m srv =>
  match m srv with
  | (Return a, srv') => f a srv'
  | (Fail e, srv') => (Fail e, srv')
  | (Panic, srv') => (Panic, srv')
  end.

#[global] Instance rpc_throw : MThrow error rpc := fun A e srv => (Fail e, srv).

(** Reading a field of the server. *)
Definition gets {A : Type} (f : mockServer -> A) : rpc A :=
  fun srv => (Return (f srv), srv).

(** Running code that mutates the server. *)
Definition modify (f : mockServer -> mockServer) : rpc unit :=
  fun srv => (Return tt, f srv).

(** A value whose computation dereferences a pointer: [None] panics. *)
Definition deref {A : Type} (o : option A) : rpc A :=
  fun srv => match o with Some a => (Return a, srv) | None => (Panic, srv) end.

Definition GetConfig : rpc (option ShardingConfig) := gets config.

Definition SetConfig (c : option ShardingConfig) : rpc unit :=
  modify (fun srv => set_config srv c).

(** [gRPCServer]: the receive callback is a closure over the server it
    is registered for, so it acts on the server state; [headers] is the
    map of required headers (nil and empty are both [∅]). *)
Record gRPCServer : Type := {
  onReceive : ExportRequest -> mockServer -> mockServer;
  headers : gmap string string
}.

Definition SetRequiredHeaders (s : gRPCServer) (h : gmap string string) : gRPCServer :=
  {| onReceive := onReceive s; headers := h |}.

(** The incoming context: [metadata.FromIncomingContext] gives its
    metadata, a map from header names to their values, when it has one. *)
Definition context : Type := option (gmap string (list string)).

Definition metadata_FromIncomingContext (ctx : context) :
    option (gmap string (list string)) := ctx.

Definition Qlt_bool (x y : Q) : bool := negb (Qle_bool y x).

Section mock_server.

(** [strings.ToLower], applied by [metadata.MD.Get] to the key it looks
    up; the standard library's function is a parameter of the model. *)
Variable strings_ToLower : string -> string.

(** [md.Get(k)]: the values under the lower-cased key, none when the
    key is absent. *)
Definition MD_Get (md : gmap string (list string)) (k : string) : list string :=
  match md !! strings_ToLower k with
  | Some vals => vals
  | None => []
  end.

(** The [range] over the required headers, in the order the map yields
    them: the first header whose values are not exactly the expected
    one gives the error. *)
Fixpoint checkRequiredHeaders_range (md : gmap string (list string))
    (kvs : list (string * string)) : option error :=
  match kvs with
  | [] => None
  | (k, v) :: rest =>
      let vals := MD_Get md k in
      if negb (length vals =? 1)%nat || negb (bool_decide (vals !! 0%nat = Some v))
      then Some (fmt_Errorf
                   "missing header key %q or incorrect value (want %q) got: %q"
                   k v vals)
      else checkRequiredHeaders_range md rest
  end.

(** [checkRequiredHeaders]: [None] is the nil error. Go leaves the order
    of a map range unspecified; [map_to_list] fixes one. *)
Definition checkRequiredHeaders (s : gRPCServer) (ctx : context) : option error :=
  if (size (headers s) <? 1)%nat then None
  else
    match metadata_FromIncomingContext ctx with
    | None => Some (errors_New "missing expected headers: no metadata on context")
    | Some md => checkRequiredHeaders_range md (map_to_list (headers s))
    end.

(** [Export]. [rand_Float64] is the number [rand.Float64()] returns when
    it is called: a number of [0, 1), drawn only when [RandomServerError]
    is set. *)
Definition Export (s : gRPCServer) (ctx : context) (rand_Float64 : Q)
    (request : ExportRequest) : rpc ExportResponse :=
  match checkRequiredHeaders s ctx with
  | Some err => mthrow err
  | None =>
      randomServerError ← gets RandomServerError;
      if randomServerError && Qlt_bool rand_Float64 (1 # 10)
      then mthrow (status_Err codes_Unavailable "Server is unavailable"
                     (1000000 * 100))
      else
        cfg ← GetConfig;
        isPart ← deref (shardIsPartOfConfig (Shard request) cfg);
        if negb isPart then
          cfg' ← GetConfig;
          mret {| ResultCode := ExportResponse_SHARD_CONFIG_MISTMATCH;
                  ShardingConfig_ := cfg' |}
        else
          modify (onReceive s request);;
          code ← gets nextResponseCode;
          shardingConfig ← gets nextResponseShardingConfig;
          mret {| ResultCode := code; ShardingConfig_ := shardingConfig |}
  end.

(** [GetShardingConfig]. *)
Definition GetShardingConfig (s : gRPCServer) (ctx : context) :
    rpc (option ShardingConfig) :=
  match checkRequiredHeaders s ctx with
  | Some err => mthrow err
  | None => GetConfig
  end.

End mock_server.

(** [Listen] builds the [gRPCServer]: the callback it is given, and the
    required headers when there are some. *)
Definition Listen_gRPCServer (onReceive : ExportRequest -> mockServer -> mockServer)
    (headers : gmap string string) : gRPCServer :=
  let grpcSrv := {| onReceive := onReceive; headers := ∅ |} in
  if (0 <? size headers)%nat then SetRequiredHeaders grpcSrv headers else grpcSrv.

(** [runServer]: the callback stores the request in the server's sink. *)
Definition runServer_onReceiveFunc (request : ExportRequest) (srv : mockServer) :
    mockServer :=
  set_Sink srv (mockServerSink_onReceive (Sink srv) request).

Definition runServer_gRPCServer (headers : gmap string string) : gRPCServer :=
  Listen_gRPCServer runServer_onReceiveFunc headers.

(** ** Test utilities: the encoder sink *)

Section encoder_sink.

(** [jaeger.Span], [shardInMemConfig] and [EncoderErrorCode] are
    declared elsewhere; the sink stores or ignores their values. *)
Context {Span shardInMemConfig EncoderErrorCode : Type}.

(** [encoderSink] stores results of encoding for later examination in
    the tests. *)
Record encoderSink : Type := {
  successSpanCount : Z;
  encodedRecords : list EncodedRecord;
  failSpanCount : Z;
  failedSpans : list Span
}.

(** The zero value [encoderSink{}] the tests start from. *)
Definition encoderSink_zero : encoderSink :=
  {| successSpanCount := 0; encodedRecords := [];
     failSpanCount := 0; failedSpans := [] |}.

(** [es.successSpanCount += int(record.SpanCount)], then the append. *)
Definition onReady (es : encoderSink) (record : EncodedRecord)
    (originalSpans : list Span) (shard : shardInMemConfig) : encoderSink :=
  {| successSpanCount := wrap64 (successSpanCount es + wrap64 (SpanCount record));
     encodedRecords := encodedRecords es ++ [record];
     failSpanCount := failSpanCount es;
     failedSpans := failedSpans es |}.

(** [es.failSpanCount += len(failedSpans)], then the append. *)
Definition onFail (es : encoderSink) (failed : list Span)
    (code : EncoderErrorCode) : encoderSink :=
  {| successSpanCount := successSpanCount es;
     encodedRecords := encodedRecords es;
     failSpanCount := wrap64 (failSpanCount es + Z.of_nat (length failed));
     failedSpans := failedSpans es ++ failed |}.

Definition getSuccessSpanCount (es : encoderSink) : Z := successSpanCount es.
Definition getEncodedRecords (es : encoderSink) : list EncodedRecord := encodedRecords es.
Definition getFailSpanCount (es : encoderSink) : Z := failSpanCount es.
Definition getFailedSpans (es : encoderSink) : list Span := failedSpans es.

(** A call on the sink, and a sequence of calls run in order. *)
Inductive sink_call : Type :=
| call_onReady (record : EncodedRecord) (originalSpans : list Span)
    (shard : shardInMemConfig)
| call_onFail (failed : list Span) (code : EncoderErrorCode).

Definition run_call (es : encoderSink) (c : sink_call) : encoderSink :=
  match c with
  | call_onReady record originalSpans shard => onReady es record originalSpans shard
  | call_onFail failed code => onFail es failed code
  end.

Definition run_calls (es : encoderSink) (cs : list sink_call) : encoderSink :=
  fold_left run_call cs es.

End encoder_sink.
Arguments encoderSink : clear implicits.
Arguments sink_call : clear implicits.

(** ** Test utilities: [WaitForN] *)

Definition time_Millisecond : Z := 1000000.

(** One turn of the loop of [WaitForN] sees what [cond()] returns and,
    when it is false, the time elapsed since the start once the wait is
    over. The loop runs on the list of what its turns see; it gives the
    returned boolean, or [None] when the list ends while the loop is
    still going, and the intervals it waited for, in order. *)
Fixpoint WaitForN_loop (seen : list (bool * Z)) (duration waitInterval : Z) :
    option bool * list Z :=
  match seen with
  | [] => (None, [])
  | (cond, elapsed) :: rest =>
      if cond then (Some true, [])
      else
        (* <-time.After(waitInterval) *)
        let waited := waitInterval in
        let waitInterval :=
          if waitInterval <? time_Millisecond * 500
          then wrap64 (waitInterval * 2)
          else waitInterval in
        if elapsed >? duration then (Some false, [waited])
        else
          let '(r, waits) := WaitForN_loop rest duration waitInterval in
          (r, waited :: waits)
  end.

(** [WaitForN]: the loop starts with a 5 ms waiting interval. *)
Definition WaitForN (seen : list (bool * Z)) (duration : Z) : option bool * list Z :=
  WaitForN_loop seen duration (time_Millisecond * 5).

Definition time_Second : Z := 1000000000.

(** [WaitFor] is like [WaitForN] but with a fixed duration of 10
    seconds. *)
Definition WaitFor (seen : list (bool * Z)) : option bool * list Z :=
  WaitForN seen (time_Second * 10).

(** ** Test utilities: sorting records by partition key *)

(** Indexing a slice with a Go [int]: out of range, below zero also, it
    panics ([None]). *)
Definition slice_index {A : Type} (a : list A) (i : Z) : option A :=
  if i <? 0 then None else a !! Z.to_nat i.

(** [byPartitionKey] is a slice of pointers to records; it implements
    [sort.Interface]. *)
Definition byPartitionKey_Len (a : list (option EncodedRecord)) : Z :=
  Z.of_nat (length a).

(** [a[i], a[j] = a[j], a[i]]: both right-hand sides are read before
    anything is written, so a bad index panics with the slice intact. *)
Definition byPartitionKey_Swap (a : list (option EncodedRecord)) (i j : Z) :
    option (list (option EncodedRecord)) :=
  match slice_index a j, slice_index a i with
  | Some aj, Some ai => Some (<[Z.to_nat j := ai]> (<[Z.to_nat i := aj]> a))
  | _, _ => None
  end.

(** [a[i].PartitionKey < a[j].PartitionKey], the order of Go strings:
    bytewise lexicographic. A bad index or a nil record panics. *)
Definition byPartitionKey_Less (a : list (option EncodedRecord)) (i j : Z) :
    option bool :=
  match slice_index a i with
  | Some (Some x) =>
      match slice_index a j with
      | Some (Some y) => Some (String.ltb (PartitionKey x) (PartitionKey y))
      | _ => None
      end
  | _ => None
  end.

(** ** Test utilities: the client sink *)

Section client_sink.

(** [jaeger.Span] and [SendErrorCode] are declared elsewhere; the sink
    ignores their values. *)
Context {Span SendErrorCode : Type}.

(** [clientSink] stores the responses the client receives from the
    server. The pointers are stored as they come, nil or not. *)
Record clientSink : Type := {
  responseToRecords : list (option EncodedRecord);
  responses : list (option ExportResponse);
  failedRecords : list (option EncodedRecord)
}.

Definition clientSink_zero : clientSink :=
  {| responseToRecords := []; responses := []; failedRecords := [] |}.

Definition onSendResponse (cs : clientSink) (record : option EncodedRecord)
    (originalSpans : list Span) (response : option ExportResponse) : clientSink :=
  {| responseToRecords := responseToRecords cs ++ [record];
     responses := responses cs ++ [response];
     failedRecords := failedRecords cs |}.

Definition onSendFail (cs : clientSink) (failed : option EncodedRecord)
    (originalSpans : list Span) (code : SendErrorCode) : clientSink :=
  {| responseToRecords := responseToRecords cs;
     responses := responses cs;
     failedRecords := failedRecords cs ++ [failed] |}.

Definition getResponseToRecords (cs : clientSink) : list (option EncodedRecord) :=
  responseToRecords cs.

Definition getResponses (cs : clientSink) : list (option ExportResponse) :=
  responses cs.

(** A call on the client sink, and a sequence of calls run in order. *)
Inductive client_call : Type :=
| call_onSendResponse (record : option EncodedRecord) (originalSpans : list Span)
    (response : option ExportResponse)
| call_onSendFail (failed : option EncodedRecord) (originalSpans : list Span)
    (code : SendErrorCode).

Definition run_client_call (cs : clientSink) (c : client_call) : clientSink :=
  match c with
  | call_onSendResponse record originalSpans response =>
      onSendResponse cs record originalSpans response
  | call_onSendFail failed originalSpans code =>
      onSendFail cs failed originalSpans code
  end.

Definition run_client_calls (cs : clientSink) (l : list client_call) : clientSink :=
  fold_left run_client_call l cs.

End client_sink.
Arguments clientSink : clear implicits.
Arguments client_call : clear implicits.

End omnishard.

(** * The configuration of the OpenCensus receiver

    A shallow embedding of the option building of the receiver's
    [Config] (package opencensusreceiver). The options of gRPC, of the
    trace receiver and of the receiver itself are opaque values in Go;
    here each is the name of the function that made it with the
    arguments it was given. *)
Module opencensusreceiver.

(** An unsigned 64-bit integer, and the conversion of one to [int] or
    [int64], which keeps the bits. *)
Definition wrapU64 (z : Z) : Z := z mod 2 ^ 64.

Definition to_int64 (z : Z) : Z := omnishard.wrap64 z.

Record tlsCredentials : Type := {
  CertFile : string;
  KeyFile : string
}.

(** The fields [Time] and [Timeout] are [KeepaliveTime] and
    [KeepaliveTimeout] here. *)
Record keepaliveServerParameters : Type := {
  MaxConnectionIdle : Z;
  MaxConnectionAge : Z;
  MaxConnectionAgeGrace : Z;
  KeepaliveTime : Z;
  KeepaliveTimeout : Z
}.

Record keepaliveEnforcementPolicy : Type := {
  MinTime : Z;
  PermitWithoutStream : bool
}.

Record serverParametersAndEnforcementPolicy : Type := {
  ServerParameters : option keepaliveServerParameters;
  EnforcementPolicy : option keepaliveEnforcementPolicy
}.

(** [Config]; the embedded receiver settings play no part in the
    options. [MaxRecvMsgSizeMiB] and [MaxServerStreams] are [uint64],
    [MaxConcurrentStreams] is [uint32]: natural numbers here. *)
Record Config : Type := {
  TLSCredentials : option tlsCredentials;
  Keepalive : option serverParametersAndEnforcementPolicy;
  MaxRecvMsgSizeMiB : N;
  MaxConcurrentStreams : N;
  EnableBackPressure : bool;
  MaxServerStreams : N
}.

Section options.

(** The transport credentials and the errors of the TLS library, and
    [credentials.NewServerTLSFromFile], which reads the two files. *)
Context {TransportCredentials tls_error : Type}.
Variable credentials_NewServerTLSFromFile :
  string -> string -> TransportCredentials + tls_error.

Inductive grpc_ServerOption : Type :=
| grpc_MaxRecvMsgSize (m : Z)
| grpc_MaxConcurrentStreams (n : N)
| grpc_KeepaliveParams (kp : keepaliveServerParameters)
| grpc_KeepaliveEnforcementPolicy (kep : keepaliveEnforcementPolicy)
| grpc_Creds (c : TransportCredentials).

Inductive octrace_Option : Type :=
| octrace_WithBackPressure
| octrace_WithMaxServerStream (n : Z).

Inductive Option : Type :=
| WithNoopOption
| WithGRPCServerOptions (opts : list grpc_ServerOption)
| WithTraceReceiverOptions (opts : list octrace_Option).

(** The error of [buildOptions]: the TLS error wrapped by [fmt.Errorf]. *)
Inductive build_error : Type :=
| fmt_Errorf_TLS (err : tls_error).

Definition traceReceiverOptions (rOpts : Config) : list octrace_Option :=
  let opts := [] in
  let opts := if EnableBackPressure rOpts
              then opts ++ [octrace_WithBackPressure] else opts in
  let opts := if (0 <? MaxServerStreams rOpts)%N
              then opts ++ [octrace_WithMaxServerStream
                              (to_int64 (Z.of_N (MaxServerStreams rOpts)))]
              else opts in
  opts.

Definition grpcServerOptions (rOpts : Config) : list grpc_ServerOption :=
  let grpcServerOptions := [] in
  let grpcServerOptions :=
    if (0 <? MaxRecvMsgSizeMiB rOpts)%N
    then grpcServerOptions ++
         [grpc_MaxRecvMsgSize
            (to_int64 (wrapU64 (wrapU64 (Z.of_N (MaxRecvMsgSizeMiB rOpts) * 1024)
                                * 1024)))]
    else grpcServerOptions in
  let grpcServerOptions :=
    if (0 <? MaxConcurrentStreams rOpts)%N
    then grpcServerOptions ++ [grpc_MaxConcurrentStreams (MaxConcurrentStreams rOpts)]
    else grpcServerOptions in
  match Keepalive rOpts with
  | None => grpcServerOptions
  | Some ka =>
      let grpcServerOptions :=
        match ServerParameters ka with
        | None => grpcServerOptions
        | Some svrParams =>
            grpcServerOptions ++
            [grpc_KeepaliveParams
               {| MaxConnectionIdle := MaxConnectionIdle svrParams;
                  MaxConnectionAge := MaxConnectionAge svrParams;
                  MaxConnectionAgeGrace := MaxConnectionAgeGrace svrParams;
                  KeepaliveTime := KeepaliveTime svrParams;
                  KeepaliveTimeout := KeepaliveTimeout svrParams |}]
        end in
      match EnforcementPolicy ka with
      | None => grpcServerOptions
      | Some enfPol =>
          grpcServerOptions ++
          [grpc_KeepaliveEnforcementPolicy
             {| MinTime := MinTime enfPol;
                PermitWithoutStream := PermitWithoutStream enfPol |}]
      end
  end.

(** [ToOpenCensusReceiverServerOption]: the option ([None] is the nil
    option of the error case), whether it carries credentials, and the
    error if any. *)
Definition ToOpenCensusReceiverServerOption (tlsCreds : option tlsCredentials) :
    option Option * bool * option tls_error :=
  match tlsCreds with
  | None => (Some WithNoopOption, false, None)
  | Some creds =>
      match credentials_NewServerTLSFromFile (CertFile creds) (KeyFile creds) with
      | inr err => (None, false, Some err)
      | inl transportCreds =>
          (Some (WithGRPCServerOptions [grpc_Creds transportCreds]), true, None)
      end
  end.

(** [buildOptions]: the options and the error, as Go returns them. The
    TLS option is appended when [hasTLSCreds] is set, and then it is
    not nil. *)
Definition buildOptions (rOpts : Config) : list Option * option build_error :=
  let opts := [] in
  match ToOpenCensusReceiverServerOption (TLSCredentials rOpts) with
  | (_, _, Some err) => (opts, Some (fmt_Errorf_TLS err))
  | (tlsCredsOption, hasTLSCreds, None) =>
      let opts :=
        if hasTLSCreds
        then match tlsCredsOption with
             | Some o => opts ++ [o]
             | None => opts
             end
        else opts in
      let grpcOpts := grpcServerOptions rOpts in
      let opts := if (0 <? length grpcOpts)%nat
                  then opts ++ [WithGRPCServerOptions grpcOpts] else opts in
      let traceOpts := traceReceiverOptions rOpts in
      let opts := if (0 <? length traceOpts)%nat
                  then opts ++ [WithTraceReceiverOptions traceOpts] else opts in
      (opts, None)
  end.

End options.

End opencensusreceiver.

Import omnishard.

(** * Notions of the specification *)

(** A nil key read as the empty byte sequence. *)
Definition nil_to_empty (k : option (list byte)) : list byte := default [] k.

(** The strict lexicographic order of byte sequences, bytes compared as
    unsigned numbers: a proper prefix comes first, otherwise the first
    differing byte decides. *)
Inductive lex_lt : list byte -> list byte -> Prop :=
| lex_lt_prefix y b : lex_lt [] (y :: b)
| lex_lt_first x y a b : (Byte.to_N x < Byte.to_N y)%N -> lex_lt (x :: a) (y :: b)
| lex_lt_rest x a b : lex_lt a b -> lex_lt (x :: a) (x :: b).

(** [r] is the result of a three-way lexicographic comparison of [a]
    and [b]. *)
Definition lex_compare_is (a b : list byte) (r : Z) : Prop :=
  (r = -1 /\ lex_lt a b) \/ (r = 0 /\ a = b) \/ (r = 1 /\ lex_lt b a).

(** Exact match: same shard id, same starting key and same ending key
    as byte sequences, a nil key being the empty sequence. *)
Definition exact_match (d sh : ShardDefinition) : Prop :=
  ShardId d = ShardId sh /\
  nil_to_empty (StartingHashKey d) = nil_to_empty (StartingHashKey sh) /\
  nil_to_empty (EndingHashKey d) = nil_to_empty (EndingHashKey sh).

(** The shard is an exact match of some definition of the config. *)
Definition matches_config (sh : ShardDefinition) (cfg : ShardingConfig) : Prop :=
  exists d, In d (ShardDefinitions cfg) /\ exact_match d sh.

Section spec_notions.

Variable strings_ToLower : string -> string.

(** Some required header is configured and the request's metadata does
    not carry exactly its expected value: there is no metadata, the key
    is absent, or its values are not the expected one alone. *)
Definition header_mismatch (s : gRPCServer) (ctx : context) : Prop :=
  exists k v, headers s !! k = Some v /\
    match ctx with
    | None => True
    | Some md => MD_Get strings_ToLower md k <> [v]
    end.

(** The same request submitted once per attempt, each attempt with its
    own context and random draw, against the server as the previous
    attempt left it. *)
Fixpoint Export_repeat (s : gRPCServer) (attempts : list (context * Q))
    (request : ExportRequest) (srv : mockServer) :
    list (outcome ExportResponse) * mockServer :=
  match attempts with
  | [] => ([], srv)
  | (ctx, rnd) :: rest =>
      let '(r, srv') := Export strings_ToLower s ctx rnd request srv in
      let '(rs, srv'') := Export_repeat s rest request srv' in
      (r :: rs, srv'')
  end.

End spec_notions.

(** The transient-error draw: the simulation is on and the number drawn
    is below one tenth. *)
Definition transient_drawn (srv : mockServer) (rnd : Q) : bool :=
  RandomServerError srv && Qlt_bool rnd (1 # 10).

(** The receive callback leaves the configuration of the router alone:
    the config, the next response code and the error simulation. *)
Definition callback_keeps_config (f : ExportRequest -> mockServer -> mockServer) : Prop :=
  forall request srv,
    config (f request srv) = config srv /\
    nextResponseCode (f request srv) = nextResponseCode srv /\
    RandomServerError (f request srv) = RandomServerError srv.

(** The response is a successful one with result code [OK]. *)
Definition responds_OK (r : outcome ExportResponse) : Prop :=
  exists resp, r = Return resp /\ ResultCode resp = ExportResponse_OK.

Section sink_notions.

Context {Span shardInMemConfig EncoderErrorCode : Type}.
Abbreviation call := (sink_call Span shardInMemConfig EncoderErrorCode).

(** The sum of the span counts of a list of records. *)
Definition sum_SpanCount (rs : list EncodedRecord) : Z :=
  foldr (fun r acc => SpanCount r + acc) 0 rs.

(** The records and the failed spans a sequence of calls hands over. *)
Definition ready_records (cs : list call) : list EncodedRecord :=
  flat_map (fun c => match c with
                     | call_onReady r _ _ => [r]
                     | call_onFail _ _ => []
                     end) cs.

Definition failed_spans (cs : list call) : list Span :=
  flat_map (fun c => match c with
                     | call_onReady _ _ _ => []
                     | call_onFail f _ => f
                     end) cs.

(** Span counts are counts, and the totals fit Go's [int]. *)
Definition counts_fit (cs : list call) : Prop :=
  Forall (fun r => 0 <= SpanCount r) (ready_records cs) /\
  sum_SpanCount (ready_records cs) < 2 ^ 63 /\
  Z.of_nat (length (failed_spans cs)) < 2 ^ 63.

End sink_notions.

(** * Notions for the further properties *)

Section session_notions.

Variable strings_ToLower : string -> string.

(** A call passes both gates of [Export] and its shard is part of the
    server's config: the call that reaches the receive callback. *)
Definition accepted (s : gRPCServer) (srv : mockServer)
    (c : context * Q * ExportRequest) : bool :=
  let '(ctx, rnd, request) := c in
  match checkRequiredHeaders strings_ToLower s ctx with
  | Some _ => false
  | None =>
      negb (transient_drawn srv rnd) &&
      match shardIsPartOfConfig (Shard request) (config srv) with
      | Some true => true
      | _ => false
      end
  end.

(** A session: the calls are served one after the other, each against
    the server as the previous one left it; a panic ends the session. *)
Fixpoint serve (s : gRPCServer) (calls : list (context * Q * ExportRequest))
    (srv : mockServer) : list (outcome ExportResponse) * mockServer :=
  match calls with
  | [] => ([], srv)
  | (ctx, rnd, request) :: rest =>
      match Export strings_ToLower s ctx rnd request srv with
      | (Panic, srv') => ([Panic], srv')
      | (r, srv') =>
          let '(rs, srv'') := serve s rest srv' in
          (r :: rs, srv'')
      end
  end.

End session_notions.

(** The interval [WaitForN] waits for in its turn [i], counted from 0,
    and the time it has waited in its first [n] turns. *)
Definition interval (i : nat) : Z :=
  time_Millisecond * 5 * 2 ^ Z.of_nat (Nat.min i 7).

Definition intervals (n : nat) : list Z := map interval (seq 0 n).

Definition total_wait (n : nat) : Z := foldr Z.add 0 (intervals n).

(** In the first [n] turns the condition is false and the time is not
    out. *)
Definition keeps_waiting (seen : list (bool * Z)) (duration : Z) (n : nat) : Prop :=
  forall i, (i < n)%nat ->
    exists elapsed, seen !! i = Some (false, elapsed) /\ elapsed <= duration.

(** The clock never runs behind the waits: the time elapsed at the end
    of a turn is at least what the loop has waited so far. *)
Definition clock_sound (seen : list (bool * Z)) : Prop :=
  forall i cond elapsed, seen !! i = Some (cond, elapsed) ->
    total_wait (S i) <= elapsed.

Section client_sink_notions.

Context {Span SendErrorCode : Type}.

(** The pairs of record and response, and the failed records, a
    sequence of calls hands to the client sink. *)
Definition answered (l : list (client_call Span SendErrorCode)) :
    list (option EncodedRecord * option ExportResponse) :=
  flat_map (fun c => match c with
                     | call_onSendResponse r _ resp => [(r, resp)]
                     | call_onSendFail _ _ _ => []
                     end) l.

Definition failed_records (l : list (client_call Span SendErrorCode)) :
    list (option EncodedRecord) :=
  flat_map (fun c => match c with
                     | call_onSendResponse _ _ _ => []
                     | call_onSendFail r _ _ => [r]
                     end) l.

End client_sink_notions.

(** * Values used in the examples *)

(** ASCII lower-casing, what [strings.ToLower] does on header names. *)
Fixpoint ToLower_ascii (k : string) : string :=
  match k with
  | EmptyString => EmptyString
  | String c rest =>
      let n := Ascii.nat_of_ascii c in
      String (if ((65 <=? n) && (n <=? 90))%nat
              then Ascii.ascii_of_nat (n + 32) else c)
             (ToLower_ascii rest)
  end.

Definition shard1 : ShardDefinition :=
  {| ShardId := 1; StartingHashKey := None; EndingHashKey := Some [x6d] |}.

Definition shard1_empty : ShardDefinition :=
  {| ShardId := 1; StartingHashKey := Some []; EndingHashKey := Some [x6d] |}.

Definition shard2 : ShardDefinition :=
  {| ShardId := 2; StartingHashKey := Some [x6d]; EndingHashKey := None |}.

Definition config12 : ShardingConfig := {| ShardDefinitions := [shard1; shard2] |}.

Definition config2 : ShardingConfig := {| ShardDefinitions := [shard2] |}.

Definition record_apple : EncodedRecord :=
  {| PartitionKey := "apple"; SpanCount := 3; Payload := [] |}.

Definition request1 : ExportRequest :=
  {| Shard := Some shard1; Record_ := Some record_apple |}.

Definition api_key_headers : gmap string string := {[ "x-api-key" := "secret" ]}.

Definition ctx_with_key : context := Some {[ "x-api-key" := ["secret"] ]}.

Definition ctx_two_keys : context := Some {[ "x-api-key" := ["secret"; "other"] ]}.

(** A server that holds [config2] only. *)
Definition server2 : mockServer := set_config newMockServer (Some config2).

(** A server that holds [config12]. *)
Definition server12 : mockServer := set_config newMockServer (Some config12).

(** A server that holds [config12] and was told to answer with a
    mismatch and [config2]. *)
Definition server12_forced : mockServer :=
  {| Sink := Sink server12;
     RandomServerError := false;
     nextResponseCode := ExportResponse_SHARD_CONFIG_MISTMATCH;
     nextResponseShardingConfig := Some config2;
     config := config server12 |}.

(** A server that holds [config12] and simulates transient errors. *)
Definition server12_flaky : mockServer :=
  {| Sink := Sink server12;
     RandomServerError := true;
     nextResponseCode := nextResponseCode server12;
     nextResponseShardingConfig := nextResponseShardingConfig server12;
     config := config server12 |}.

(** * Properties *)

(** ** Machine integers *)

Lemma wrap64_small (z : Z) : - 2 ^ 63 <= z < 2 ^ 63 -> wrap64 z = z.
Proof.
  intros Hz. unfold wrap64.
  rewrite Z.mod_small; lia.
Qed.

(** ** Hash keys *)

Lemma byte_to_N_inj (x y : byte) : Byte.to_N x = Byte.to_N y -> x = y.
Proof.
  intros Heq.
  assert (Hx := Byte.of_to_N x). assert (Hy := Byte.of_to_N y).
  rewrite Heq in Hx. congruence.
Qed.

(** [bytes_Compare] is the three-way lexicographic comparison. *)
Lemma bytes_Compare_lex (a b : list byte) : lex_compare_is a b (bytes_Compare a b).
Proof.
  revert b. induction a as [|x a IH]; intros [|y b]; simpl.
  - right; left; split; reflexivity.
  - left; split; [reflexivity | constructor].
  - right; right; split; [reflexivity | constructor].
  - destruct (N.compare_spec (Byte.to_N x) (Byte.to_N y)) as [Heq | Hlt | Hgt].
    + apply byte_to_N_inj in Heq; subst y.
      destruct (IH b) as [[-> Hl] | [[-> ->] | [-> Hl]]].
      * left; split; [reflexivity | now apply lex_lt_rest].
      * right; left; split; reflexivity.
      * right; right; split; [reflexivity | now apply lex_lt_rest].
    + left; split; [reflexivity | now apply lex_lt_first].
    + right; right; split; [reflexivity | now apply lex_lt_first].
Qed.

Lemma lex_lt_irrefl (a : list byte) : ~ lex_lt a a.
Proof.
  induction a as [|x a IH]; intros H; inversion H; subst.
  - lia.
  - now apply IH.
Qed.

Lemma bytes_Compare_eq (a b : list byte) : bytes_Compare a b = 0 <-> a = b.
Proof.
  destruct (bytes_Compare_lex a b) as [[Hr Hl] | [[Hr Hl] | [Hr Hl]]]; rewrite Hr.
  - split; [lia | intros ->; now apply lex_lt_irrefl in Hl].
  - tauto.
  - split; [lia | intros ->; now apply lex_lt_irrefl in Hl].
Qed.

Lemma compareHashKey_unfold (k1 k2 : option (list byte)) :
  compareHashKey k1 k2 = bytes_Compare (nil_to_empty k1) (nil_to_empty k2).
Proof. destruct k1, k2; reflexivity. Qed.

Lemma compareHashKey_eq (k1 k2 : option (list byte)) :
  compareHashKey k1 k2 = 0 <-> nil_to_empty k1 = nil_to_empty k2.
Proof. rewrite compareHashKey_unfold. apply bytes_Compare_eq. Qed.

(** The test of the loop body of [shardIsPartOfConfig] decides
    [exact_match]. *)
Lemma loop_test_exact_match (d sh : ShardDefinition) :
  (ShardId d =? ShardId sh) &&
  (compareHashKey (StartingHashKey d) (StartingHashKey sh) =? 0) &&
  (compareHashKey (EndingHashKey d) (EndingHashKey sh) =? 0) = true
  <-> exact_match d sh.
Proof.
  unfold exact_match.
  rewrite !andb_true_iff, !Z.eqb_eq, !compareHashKey_eq. tauto.
Qed.

(** With a shard and a config at hand the function never panics, and it
    says whether the shard matches the config. *)
Lemma shardIsPartOfConfig_spec (sh : ShardDefinition) (cfg : ShardingConfig) :
  (matches_config sh cfg /\ shardIsPartOfConfig (Some sh) (Some cfg) = Some true) \/
  (~ matches_config sh cfg /\ shardIsPartOfConfig (Some sh) (Some cfg) = Some false).
Proof.
  unfold matches_config. simpl.
  induction (ShardDefinitions cfg) as [|d defs IH]; simpl.
  - right. split; [|reflexivity]. intros (d & [] & _).
  - destruct ((ShardId d =? ShardId sh) && _ && _) eqn:Ht.
    + left. split; [|reflexivity]. exists d. split; [now left|].
      now apply loop_test_exact_match.
    + destruct IH as [[(d' & Hin & Hm) Hr] | [Hno Hr]].
      * left. split; [|exact Hr]. exists d'. split; [now right | exact Hm].
      * right. split; [|exact Hr].
        intros (d' & [-> | Hin] & Hm).
        -- apply loop_test_exact_match in Hm. congruence.
        -- apply Hno. eauto.
Qed.

Lemma exact_match_refl (d : ShardDefinition) : exact_match d d.
Proof. unfold exact_match. tauto. Qed.

Lemma exact_match_shift (d d' sh sh' : ShardDefinition) :
  exact_match d d' -> exact_match sh sh' -> exact_match d sh <-> exact_match d' sh'.
Proof.
  unfold exact_match. intros (Hi & Hs & He) (Hi' & Hs' & He').
  rewrite Hi, Hs, He, Hi', Hs', He'. tauto.
Qed.

(** The loop does not tell apart shards, or lists of definitions, that
    differ only in nil keys being empty ones. *)
Lemma shardIsPartOfConfig_range_congr (shard shard' : option ShardDefinition)
    (defs defs' : list ShardDefinition) :
  option_Forall2 exact_match shard shard' ->
  Forall2 exact_match defs defs' ->
  shardIsPartOfConfig_range shard defs = shardIsPartOfConfig_range shard' defs'.
Proof.
  intros Hsh Hdefs. induction Hdefs as [|d d' defs defs' Hd _ IH]; simpl.
  - reflexivity.
  - destruct Hsh as [sh sh' Hsh|]; [|reflexivity].
    assert (Hiff := exact_match_shift d d' sh sh' Hd Hsh).
    rewrite <- !loop_test_exact_match in Hiff.
    destruct ((ShardId d =? ShardId sh) && _ && _),
             ((ShardId d' =? ShardId sh') && _ && _);
      try reflexivity; try exact IH.
    + destruct Hiff as [Hiff _]. discriminate (Hiff eq_refl).
    + destruct Hiff as [_ Hiff]. discriminate (Hiff eq_refl).
Qed.

Lemma Forall2_exact_match_refl (defs : list ShardDefinition) :
  Forall2 exact_match defs defs.
Proof. induction defs; constructor; auto using exact_match_refl. Qed.

Lemma option_Forall2_exact_match_refl (shard : option ShardDefinition) :
  option_Forall2 exact_match shard shard.
Proof. destruct shard; constructor; apply exact_match_refl. Qed.

(** A shard is part of a config that holds an exact match of it,
    wherever the match stands. *)
Lemma shardIsPartOfConfig_exact_match (sh d : ShardDefinition)
    (defs1 defs2 : list ShardDefinition) :
  exact_match d sh ->
  shardIsPartOfConfig (Some sh) (Some {| ShardDefinitions := defs1 ++ d :: defs2 |})
    = Some true.
Proof.
  intros Hm.
  destruct (shardIsPartOfConfig_spec sh {| ShardDefinitions := defs1 ++ d :: defs2 |})
    as [[_ Hr] | [Hno _]]; [exact Hr|].
  exfalso. apply Hno. exists d. split; [|exact Hm].
  simpl. apply in_or_app. right. now left.
Qed.

(** C9. Nil and empty hash keys are interchangeable: [compareHashKey] is
    the three-way lexicographic comparison of the two keys, a nil key
    read as the empty sequence, so a nil key and an empty key compare
    as equal and a nil argument compares like an empty one.
    Consequently [shardIsPartOfConfig] answers true exactly when some
    definition of the config has the shard's id and, nil read as empty,
    its keys; a shard with a nil starting or ending key is part of a
    config whose definition has the empty key there, and the other way
    round; and the answer is the same when a nil key, of the request's
    shard or of a definition of the config, is replaced by an empty
    one. *)
Theorem compareHashKey_nil_as_empty (k1 k2 k : option (list byte)) (id : Z)
    (shard : option ShardDefinition) (cfg : option ShardingConfig)
    (defs1 defs2 : list ShardDefinition)
    (sh : ShardDefinition) (c : ShardingConfig) :
  (compareHashKey None (Some []) = 0 /\ compareHashKey (Some []) None = 0) /\
  (shardIsPartOfConfig (Some sh) (Some c) = Some true <-> matches_config sh c) /\
  shardIsPartOfConfig
    (Some {| ShardId := id; StartingHashKey := None; EndingHashKey := k |})
    (Some {| ShardDefinitions :=
      defs1 ++ {| ShardId := id; StartingHashKey := Some []; EndingHashKey := k |}
            :: defs2 |}) = Some true /\
  shardIsPartOfConfig
    (Some {| ShardId := id; StartingHashKey := Some []; EndingHashKey := k |})
    (Some {| ShardDefinitions :=
      defs1 ++ {| ShardId := id; StartingHashKey := None; EndingHashKey := k |}
            :: defs2 |}) = Some true /\
  shardIsPartOfConfig
    (Some {| ShardId := id; StartingHashKey := k; EndingHashKey := None |})
    (Some {| ShardDefinitions :=
      defs1 ++ {| ShardId := id; StartingHashKey := k; EndingHashKey := Some [] |}
            :: defs2 |}) = Some true /\
  shardIsPartOfConfig
    (Some {| ShardId := id; StartingHashKey := k; EndingHashKey := Some [] |})
    (Some {| ShardDefinitions :=
      defs1 ++ {| ShardId := id; StartingHashKey := k; EndingHashKey := None |}
            :: defs2 |}) = Some true /\
  lex_compare_is (nil_to_empty k1) (nil_to_empty k2) (compareHashKey k1 k2) /\
  compareHashKey None k2 = compareHashKey (Some []) k2 /\
  compareHashKey k1 None = compareHashKey k1 (Some []) /\
  shardIsPartOfConfig
    (Some {| ShardId := id; StartingHashKey := None; EndingHashKey := k |}) cfg =
  shardIsPartOfConfig
    (Some {| ShardId := id; StartingHashKey := Some []; EndingHashKey := k |}) cfg /\
  shardIsPartOfConfig
    (Some {| ShardId := id; StartingHashKey := k; EndingHashKey := None |}) cfg =
  shardIsPartOfConfig
    (Some {| ShardId := id; StartingHashKey := k; EndingHashKey := Some [] |}) cfg /\
  shardIsPartOfConfig shard (Some {| ShardDefinitions :=
    defs1 ++ {| ShardId := id; StartingHashKey := None; EndingHashKey := k |} :: defs2 |}) =
  shardIsPartOfConfig shard (Some {| ShardDefinitions :=
    defs1 ++ {| ShardId := id; StartingHashKey := Some []; EndingHashKey := k |} :: defs2 |}) /\
  shardIsPartOfConfig shard (Some {| ShardDefinitions :=
    defs1 ++ {| ShardId := id; StartingHashKey := k; EndingHashKey := None |} :: defs2 |}) =
  shardIsPartOfConfig shard (Some {| ShardDefinitions :=
    defs1 ++ {| ShardId := id; StartingHashKey := k; EndingHashKey := Some [] |} :: defs2 |}).
Proof.
  split; [split; reflexivity|].
  split.
  { destruct (shardIsPartOfConfig_spec sh c) as [[Hm Hr] | [Hm Hr]]; rewrite Hr.
    - tauto.
    - split; [discriminate | contradiction]. }
  split; [apply shardIsPartOfConfig_exact_match; repeat split|].
  split; [apply shardIsPartOfConfig_exact_match; repeat split|].
  split; [apply shardIsPartOfConfig_exact_match; repeat split|].
  split; [apply shardIsPartOfConfig_exact_match; repeat split|].
  split; [rewrite compareHashKey_unfold; apply bytes_Compare_lex|].
  split; [reflexivity|].
  split; [destruct k1; reflexivity|].
  repeat split.
  - destruct cfg as [c'|]; [|reflexivity]. simpl.
    apply shardIsPartOfConfig_range_congr;
      [constructor; repeat split | apply Forall2_exact_match_refl].
  - destruct cfg as [c'|]; [|reflexivity]. simpl.
    apply shardIsPartOfConfig_range_congr;
      [constructor; repeat split | apply Forall2_exact_match_refl].
  - simpl. apply shardIsPartOfConfig_range_congr;
      [apply option_Forall2_exact_match_refl|].
    apply Forall2_app; [apply Forall2_exact_match_refl|].
    constructor; [repeat split | apply Forall2_exact_match_refl].
  - simpl. apply shardIsPartOfConfig_range_congr;
      [apply option_Forall2_exact_match_refl|].
    apply Forall2_app; [apply Forall2_exact_match_refl|].
    constructor; [repeat split | apply Forall2_exact_match_refl].
Qed.

Lemma compareHashKey_nil_as_empty_witness :
  shardIsPartOfConfig (Some shard1)
    (Some {| ShardDefinitions := [shard1_empty; shard2] |}) = Some true /\
  shardIsPartOfConfig (Some shard1_empty) (Some config12) = Some true.
Proof.
  destruct (compareHashKey_nil_as_empty None None (Some [x6d]) 1 None None
              [] [shard2] shard1 config12) as (_ & _ & H1 & H2 & _).
  split; [exact H1 | exact H2].
Defined.

(** The comparison on two concrete keys, and the nil key against the
    empty one. *)
Example compareHashKey_examples :
  compareHashKey (Some [x61; x70]) (Some [x6d]) = -1 /\
  compareHashKey (Some [xff]) (Some [x6d; x00]) = 1 /\
  compareHashKey None (Some []) = 0 /\
  compareHashKey None (Some [x00]) = -1 /\
  shardIsPartOfConfig (Some shard1_empty) (Some config12) = Some true.
Proof. repeat split. Qed.

(** ** The header check *)

Section header_check.

Variable strings_ToLower : string -> string.

(** The test of the loop body accepts exactly one value, the expected
    one. *)
Lemma header_test_false (vals : list string) (v : string) :
  negb (length vals =? 1)%nat || negb (bool_decide (vals !! 0%nat = Some v)) = false
  <-> vals = [v].
Proof.
  rewrite orb_false_iff, !negb_false_iff, Nat.eqb_eq, bool_decide_eq_true.
  split.
  - intros [Hlen Hv]. destruct vals as [|x [|y vals]]; simpl in *; try discriminate.
    congruence.
  - intros ->. split; reflexivity.
Qed.

Lemma checkRequiredHeaders_range_None (md : gmap string (list string))
    (kvs : list (string * string)) :
  checkRequiredHeaders_range strings_ToLower md kvs = None
  <-> forall k v, (k, v) ∈ kvs -> MD_Get strings_ToLower md k = [v].
Proof.
  induction kvs as [|[k v] kvs IH]; simpl.
  - split; [|reflexivity]. intros _ k v Hin. inversion Hin.
  - destruct (negb _ || negb _) eqn:Ht.
    + split; [discriminate|]. intros Hall.
      assert (Hv : MD_Get strings_ToLower md k = [v]) by (apply Hall; left).
      apply header_test_false in Hv. congruence.
    + apply header_test_false in Ht. rewrite IH. split.
      * intros Hall k' v' Hin. apply elem_of_cons in Hin as [[= -> ->] | Hin]; auto.
      * intros Hall k' v' Hin. apply Hall. now right.
Qed.

Lemma checkRequiredHeaders_range_plain (md : gmap string (list string))
    (kvs : list (string * string)) (e : error) :
  checkRequiredHeaders_range strings_ToLower md kvs = Some e -> status_Code e = codes_Unknown.
Proof.
  induction kvs as [|[k v] kvs IH]; simpl; [discriminate|].
  destruct (negb _ || negb _); [|exact IH].
  intros [= <-]. reflexivity.
Qed.

Lemma size_lt_1 (h : gmap string string) : (size h <? 1)%nat = true <-> h = ∅.
Proof. rewrite Nat.ltb_lt, <- map_size_empty_iff. lia. Qed.

(** The check passes exactly when no header is required, or the
    metadata carries, for each required header, its expected value and
    nothing else. *)
Lemma checkRequiredHeaders_None (s : gRPCServer) (ctx : context) :
  checkRequiredHeaders strings_ToLower s ctx = None
  <-> headers s = ∅ \/
      exists md, ctx = Some md /\
        forall k v, headers s !! k = Some v -> MD_Get strings_ToLower md k = [v].
Proof.
  unfold checkRequiredHeaders, metadata_FromIncomingContext.
  destruct (size (headers s) <? 1)%nat eqn:Hsz.
  - apply size_lt_1 in Hsz. tauto.
  - assert (Hne : headers s <> ∅).
    { intros He. apply size_lt_1 in He. congruence. }
    destruct ctx as [md|].
    + rewrite checkRequiredHeaders_range_None. split.
      * intros Hall. right. exists md. split; [reflexivity|].
        intros k v Hk. apply Hall. now apply elem_of_map_to_list.
      * intros [He | (md' & [= <-] & Hall)]; [contradiction|].
        intros k v Hin. apply Hall. now apply elem_of_map_to_list.
    + split; [discriminate|].
      intros [He | (md' & [=] & _)]. contradiction.
Qed.

(** An error of the header check carries no gRPC status. *)
Lemma checkRequiredHeaders_plain (s : gRPCServer) (ctx : context) (e : error) :
  checkRequiredHeaders strings_ToLower s ctx = Some e -> status_Code e = codes_Unknown.
Proof.
  unfold checkRequiredHeaders, metadata_FromIncomingContext.
  destruct (size (headers s) <? 1)%nat; [discriminate|].
  destruct ctx as [md|].
  - apply checkRequiredHeaders_range_plain.
  - intros [= <-]. reflexivity.
Qed.

(** A mismatching header makes the check fail. *)
Lemma header_mismatch_rejected (s : gRPCServer) (ctx : context) :
  header_mismatch strings_ToLower s ctx ->
  exists e, checkRequiredHeaders strings_ToLower s ctx = Some e.
Proof.
  intros (k & v & Hk & Hbad).
  destruct (checkRequiredHeaders strings_ToLower s ctx) as [e|] eqn:Hc; [eauto|].
  exfalso. apply checkRequiredHeaders_None in Hc as [He | (md & -> & Hall)].
  - rewrite He in Hk. rewrite lookup_empty in Hk. discriminate.
  - apply Hbad. now apply Hall.
Qed.

End header_check.

(** ** The three paths of [Export] *)

Section export_paths.

Variable strings_ToLower : string -> string.

(** A failed header check ends the call: the error is returned and the
    server is as it was. *)
Lemma Export_rejected (s : gRPCServer) (ctx : context) (rnd : Q)
    (request : ExportRequest) (srv : mockServer) (e : error) :
  checkRequiredHeaders strings_ToLower s ctx = Some e ->
  Export strings_ToLower s ctx rnd request srv = (Fail e, srv).
Proof. intros Hc. unfold Export. rewrite Hc. reflexivity. Qed.

(** A transient error drawn after the header check ends the call. *)
Lemma Export_unavailable (s : gRPCServer) (ctx : context) (rnd : Q)
    (request : ExportRequest) (srv : mockServer) :
  checkRequiredHeaders strings_ToLower s ctx = None ->
  transient_drawn srv rnd = true ->
  Export strings_ToLower s ctx rnd request srv =
  (Fail (status_Err codes_Unavailable "Server is unavailable" 100000000), srv).
Proof.
  intros Hc Hd. unfold Export, transient_drawn in *. rewrite Hc.
  unfold mbind, rpc_bind, gets. simpl. rewrite Hd. reflexivity.
Qed.

(** Otherwise the call reaches the shard matching, which decides it. *)
Lemma Export_matching (s : gRPCServer) (ctx : context) (rnd : Q)
    (request : ExportRequest) (srv : mockServer) :
  checkRequiredHeaders strings_ToLower s ctx = None ->
  transient_drawn srv rnd = false ->
  Export strings_ToLower s ctx rnd request srv =
  match shardIsPartOfConfig (Shard request) (config srv) with
  | None => (Panic, srv)
  | Some false =>
      (Return {| ResultCode := ExportResponse_SHARD_CONFIG_MISTMATCH;
                 ShardingConfig_ := config srv |}, srv)
  | Some true =>
      let srv' := onReceive s request srv in
      (Return {| ResultCode := nextResponseCode srv';
                 ShardingConfig_ := nextResponseShardingConfig srv' |}, srv')
  end.
Proof.
  intros Hc Hd. unfold Export, transient_drawn in *. rewrite Hc.
  unfold mbind, rpc_bind, gets, GetConfig, gets, deref. simpl. rewrite Hd.
  destruct (shardIsPartOfConfig (Shard request) (config srv)) as [[|]|]; reflexivity.
Qed.


End export_paths.

(** The callback of [runServer] appends to the sink and touches nothing
    else. *)
Lemma runServer_onReceiveFunc_keeps_config :
  callback_keeps_config runServer_onReceiveFunc.
Proof. intros request srv. repeat split. Qed.

Lemma runServer_gRPCServer_onReceive (h : gmap string string) :
  onReceive (runServer_gRPCServer h) = runServer_onReceiveFunc.
Proof.
  unfold runServer_gRPCServer, Listen_gRPCServer.
  destruct (0 <? size h)%nat; reflexivity.
Qed.

Lemma runServer_gRPCServer_headers (h : gmap string string) :
  headers (runServer_gRPCServer h) = h.
Proof.
  unfold runServer_gRPCServer, Listen_gRPCServer.
  destruct (0 <? size h)%nat eqn:Hsz; simpl; [reflexivity|].
  apply Nat.ltb_ge in Hsz. symmetry. apply map_size_empty_iff. lia.
Qed.

(** ** The router's answers *)




(** C2, as stated, fails: the shard of the request matches the config,
    no header is required and no error is simulated, yet the server,
    told to answer with a mismatch and a config, answers so. *)
Lemma Export_match_answers_as_told :
  matches_config shard1 config12 /\
  Shard request1 = Some shard1 /\
  config server12_forced = Some config12 /\
  checkRequiredHeaders ToLower_ascii (runServer_gRPCServer ∅) None = None /\
  transient_drawn server12_forced 0 = false /\
  fst (Export ToLower_ascii (runServer_gRPCServer ∅) None 0 request1 server12_forced) =
    Return {| ResultCode := ExportResponse_SHARD_CONFIG_MISTMATCH;
              ShardingConfig_ := Some config2 |} /\
  fst (Export ToLower_ascii (runServer_gRPCServer ∅) None 0 request1 server12_forced) <>
    Return {| ResultCode := ExportResponse_OK; ShardingConfig_ := None |}.
Proof.
  assert (He : fst (Export ToLower_ascii (runServer_gRPCServer ∅) None 0 request1
                      server12_forced) =
               Return {| ResultCode := ExportResponse_SHARD_CONFIG_MISTMATCH;
                         ShardingConfig_ := Some config2 |})
    by (vm_compute; reflexivity).
  split; [exists shard1; split; [now left | apply exact_match_refl]|].
  split; [reflexivity|]. split; [reflexivity|].
  split; [vm_compute; reflexivity|]. split; [reflexivity|].
  split; [exact He|]. rewrite He. discriminate.
Qed.

(** C2, amended. A request whose shard exactly matches a definition of
    the router's current config, with the header check passed and no
    transient error drawn, is delivered to the receive callback, and the
    response carries the server's next response code and next response
    config as they are after the delivery. The callback of [runServer]
    appends the record to the sink and keeps both; when they are [OK]
    and nil, their values on a new server, the response is [OK] with no
    map attached. *)
Theorem Export_match_delivers (strings_ToLower : string -> string)
    (s : gRPCServer) (ctx : context) (rnd : Q) (request : ExportRequest)
    (sh : ShardDefinition) (cfg : ShardingConfig) (srv : mockServer)
    (Hshard : Shard request = Some sh)
    (Hconfig : config srv = Some cfg)
    (Hmatch : matches_config sh cfg)
    (Hheaders : checkRequiredHeaders strings_ToLower s ctx = None)
    (Hdraw : transient_drawn srv rnd = false) :
  let srv' := onReceive s request srv in
  Export strings_ToLower s ctx rnd request srv =
    (Return {| ResultCode := nextResponseCode srv';
               ShardingConfig_ := nextResponseShardingConfig srv' |}, srv') /\
  (onReceive s = runServer_onReceiveFunc ->
   GetRecords (Sink srv') = GetRecords (Sink srv) ++ [Record_ request] /\
   nextResponseCode srv' = nextResponseCode srv /\
   nextResponseShardingConfig srv' = nextResponseShardingConfig srv) /\
  (nextResponseCode srv' = ExportResponse_OK ->
   nextResponseShardingConfig srv' = None ->
   fst (Export strings_ToLower s ctx rnd request srv) =
     Return {| ResultCode := ExportResponse_OK; ShardingConfig_ := None |}).
Proof.
  intros srv'.
  assert (Ht : shardIsPartOfConfig (Shard request) (config srv) = Some true).
  { rewrite Hshard, Hconfig.
    destruct (shardIsPartOfConfig_spec sh cfg) as [[_ Hr] | [Hn _]];
      [exact Hr | contradiction]. }
  assert (He : Export strings_ToLower s ctx rnd request srv =
               (Return {| ResultCode := nextResponseCode srv';
                          ShardingConfig_ := nextResponseShardingConfig srv' |}, srv')).
  { rewrite Export_matching by assumption. now rewrite Ht. }
  split; [exact He|]. split.
  - intros Hcb. subst srv'. rewrite Hcb. repeat split.
  - intros Hcode Hsc. rewrite He. simpl. now rewrite Hcode, Hsc.
Qed.

Lemma Export_match_delivers_witness :
  Export ToLower_ascii (runServer_gRPCServer api_key_headers) ctx_with_key 0
    request1 server12 =
  (Return {| ResultCode := ExportResponse_OK; ShardingConfig_ := None |},
   runServer_onReceiveFunc request1 server12) /\
  GetRecords (Sink (runServer_onReceiveFunc request1 server12)) = [Some record_apple].
Proof.
  destruct (Export_match_delivers ToLower_ascii
              (runServer_gRPCServer api_key_headers) ctx_with_key 0 request1
              shard1 config12 server12 eq_refl eq_refl) as (He & Hcb & _).
  - exists shard1. split; [now left | apply exact_match_refl].
  - vm_compute; reflexivity.
  - reflexivity.
  - split; [exact He | reflexivity].
Defined.

(** ** Required headers *)

(** C3, as stated, fails: the router requires [x-api-key], the metadata
    of the request does not carry it, and the call is rejected; the
    error is the plain one [checkRequiredHeaders] formats, which carries
    no status: its gRPC code is [Unknown], not [PermissionDenied]. *)
Lemma header_rejection_is_not_PermissionDenied :
  header_mismatch ToLower_ascii (runServer_gRPCServer api_key_headers) (Some ∅) /\
  (exists e,
     fst (Export ToLower_ascii (runServer_gRPCServer api_key_headers) (Some ∅) 0
            request1 server12) = Fail e /\
     fst (GetShardingConfig ToLower_ascii (runServer_gRPCServer api_key_headers)
            (Some ∅) server12) = Fail e /\
     e = fmt_Errorf "missing header key %q or incorrect value (want %q) got: %q"
           "x-api-key" "secret" [] /\
     status_Code e = codes_Unknown /\
     status_Code e <> codes_PermissionDenied).
Proof.
  split.
  - exists "x-api-key"%string, "secret"%string. split; [reflexivity|].
    vm_compute. discriminate.
  - eexists. split; [vm_compute; reflexivity|].
    split; [vm_compute; reflexivity|].
    split; [reflexivity|]. split; [reflexivity | discriminate].
Qed.

(** C3, amended. When a required header is configured and the metadata
    of the request does not carry exactly its expected value, both RPCs
    are rejected with an error of the header check, a plain error with
    no status (gRPC code [Unknown]); the rejection comes before any
    shard matching and any delivery: it happens for every request,
    every random draw and every callback, and the server is left as it
    was. *)
Theorem header_mismatch_rejects_every_rpc (strings_ToLower : string -> string)
    (s : gRPCServer) (ctx : context)
    (Hbad : header_mismatch strings_ToLower s ctx) :
  (forall f rnd request srv,
     exists e,
       status_Code e = codes_Unknown /\
       Export strings_ToLower {| onReceive := f; headers := headers s |}
         ctx rnd request srv = (Fail e, srv)) /\
  (forall rnd request srv,
     exists e,
       status_Code e = codes_Unknown /\
       Export strings_ToLower s ctx rnd request srv = (Fail e, srv)) /\
  (forall srv,
     exists e,
       status_Code e = codes_Unknown /\
       GetShardingConfig strings_ToLower s ctx srv = (Fail e, srv)).
Proof.
  destruct (header_mismatch_rejected strings_ToLower s ctx Hbad) as [e He].
  assert (Hcode := checkRequiredHeaders_plain _ _ _ _ He).
  split; [|split].
  - intros f rnd request srv. exists e. split; [exact Hcode|].
    now apply Export_rejected.
  - intros rnd request srv. exists e. split; [exact Hcode|].
    now apply Export_rejected.
  - intros srv. exists e. split; [exact Hcode|].
    unfold GetShardingConfig. now rewrite He.
Qed.

Lemma header_mismatch_rejects_every_rpc_witness :
  (exists e,
     status_Code e = codes_Unknown /\
     Export ToLower_ascii (runServer_gRPCServer api_key_headers) None 0 request1
       server12 = (Fail e, server12)) /\
  (exists e,
     status_Code e = codes_Unknown /\
     GetShardingConfig ToLower_ascii (runServer_gRPCServer api_key_headers) None
       server12 = (Fail e, server12)).
Proof.
  destruct (header_mismatch_rejects_every_rpc ToLower_ascii
              (runServer_gRPCServer api_key_headers) None) as (_ & He & Hg).
  - exists "x-api-key"%string, "secret"%string. split; [reflexivity | exact I].
  - split; [apply He | apply Hg].
Defined.

(** C10. Edge cases of the header check: with no required header every
    request passes; with required headers a request without metadata is
    rejected, and so is a request whose metadata has more than one value
    under a required key, whether or not the expected value is among
    them (in the example it is). *)
Theorem checkRequiredHeaders_edge_cases (strings_ToLower : string -> string)
    (s0 s : gRPCServer) (md : gmap string (list string)) (k v : string)
    (H0 : headers s0 = ∅)
    (Hk : headers s !! k = Some v)
    (Hmany : (1 < length (MD_Get strings_ToLower md k))%nat) :
  (forall ctx, checkRequiredHeaders strings_ToLower s0 ctx = None) /\
  checkRequiredHeaders strings_ToLower s None =
    Some (errors_New "missing expected headers: no metadata on context") /\
  (exists e, checkRequiredHeaders strings_ToLower s (Some md) = Some e) /\
  (forall rnd request srv,
     exists e, Export strings_ToLower s (Some md) rnd request srv = (Fail e, srv)).
Proof.
  assert (Hne : (size (headers s) <? 1)%nat = false).
  { destruct (size (headers s) <? 1)%nat eqn:Hsz; [|reflexivity].
    apply size_lt_1 in Hsz. rewrite Hsz, lookup_empty in Hk. discriminate. }
  assert (Hrej : exists e, checkRequiredHeaders strings_ToLower s (Some md) = Some e).
  { apply header_mismatch_rejected. exists k, v. split; [exact Hk|].
    intros Heq. rewrite Heq in Hmany. simpl in Hmany. lia. }
  split; [|split; [|split]].
  - intros ctx. apply checkRequiredHeaders_None. now left.
  - unfold checkRequiredHeaders. now rewrite Hne.
  - exact Hrej.
  - intros rnd request srv. destruct Hrej as [e He]. exists e.
    now apply Export_rejected.
Qed.

Lemma checkRequiredHeaders_edge_cases_witness :
  (forall ctx, checkRequiredHeaders ToLower_ascii (runServer_gRPCServer ∅) ctx = None) /\
  checkRequiredHeaders ToLower_ascii (runServer_gRPCServer api_key_headers) None =
    Some (errors_New "missing expected headers: no metadata on context") /\
  (exists e, checkRequiredHeaders ToLower_ascii (runServer_gRPCServer api_key_headers)
               ctx_two_keys = Some e).
Proof.
  destruct (checkRequiredHeaders_edge_cases ToLower_ascii
              (runServer_gRPCServer ∅) (runServer_gRPCServer api_key_headers)
              {[ "x-api-key"%string := ["secret"%string; "other"%string] ]}
              "x-api-key" "secret") as (Ha & Hb & Hc & _).
  - reflexivity.
  - reflexivity.
  - vm_compute. lia.
  - split; [exact Ha|]. split; [exact Hb | exact Hc].
Defined.

(** The header check on the values of the examples. *)
Example checkRequiredHeaders_examples :
  checkRequiredHeaders ToLower_ascii (runServer_gRPCServer api_key_headers)
    ctx_with_key = None /\
  checkRequiredHeaders ToLower_ascii (runServer_gRPCServer api_key_headers)
    ctx_two_keys =
    Some (fmt_Errorf "missing header key %q or incorrect value (want %q) got: %q"
            "x-api-key" "secret" ["secret"; "other"]) /\
  checkRequiredHeaders ToLower_ascii
    (runServer_gRPCServer {[ "X-Api-Key" := "secret" ]}) ctx_with_key = None /\
  checkRequiredHeaders ToLower_ascii (runServer_gRPCServer api_key_headers)
    (Some {[ "x-api-key" := ["wrong"] ]}) =
    Some (fmt_Errorf "missing header key %q or incorrect value (want %q) got: %q"
            "x-api-key" "secret" ["wrong"]).
Proof. repeat split; vm_compute; reflexivity. Qed.

(** ** Resubmission *)

(** C4. Idempotence of a successful export: the shard of the request is
    part of the router's config, the next response code is [OK], the
    error simulation is off, the callback leaves all three alone, and
    every attempt passes the header check; then every resubmission of
    the request is answered, with result code [OK]. *)
Theorem Export_resubmission_OK (strings_ToLower : string -> string)
    (s : gRPCServer) (attempts : list (context * Q)) (request : ExportRequest)
    (srv : mockServer)
    (Hkeeps : callback_keeps_config (onReceive s))
    (Hpart : shardIsPartOfConfig (Shard request) (config srv) = Some true)
    (Hcode : nextResponseCode srv = ExportResponse_OK)
    (Hsim : RandomServerError srv = false)
    (Hheaders : Forall (fun a => checkRequiredHeaders strings_ToLower s (fst a) = None)
                  attempts) :
  Forall responds_OK (fst (Export_repeat strings_ToLower s attempts request srv)) /\
  length (fst (Export_repeat strings_ToLower s attempts request srv)) = length attempts.
Proof.
  revert srv Hpart Hcode Hsim.
  induction Hheaders as [|[ctx rnd] attempts Hc _ IH]; intros srv Hpart Hcode Hsim.
  - split; [constructor | reflexivity].
  - simpl in Hc. simpl.
    assert (Hd : transient_drawn srv rnd = false)
      by (unfold transient_drawn; now rewrite Hsim).
    rewrite (Export_matching strings_ToLower s ctx rnd request srv Hc Hd), Hpart.
    cbv zeta.
    destruct (Hkeeps request srv) as (Hk1 & Hk2 & Hk3).
    destruct (IH (onReceive s request srv)) as [IHa IHb];
      [congruence | congruence | congruence |].
    destruct (Export_repeat strings_ToLower s attempts request
                (onReceive s request srv)) as [rs srv''].
    simpl in *. split.
    + constructor; [|exact IHa].
      eexists. split; [reflexivity|]. simpl. congruence.
    + now rewrite IHb.
Qed.

Lemma Export_resubmission_OK_witness :
  Forall responds_OK
    (fst (Export_repeat ToLower_ascii (runServer_gRPCServer api_key_headers)
            [(ctx_with_key, 0%Q); (ctx_with_key, (1 # 2)%Q); (ctx_with_key, 0%Q)]
            request1 server12)).
Proof.
  refine (proj1 (Export_resubmission_OK ToLower_ascii
                   (runServer_gRPCServer api_key_headers)
                   [(ctx_with_key, 0%Q); (ctx_with_key, (1 # 2)%Q); (ctx_with_key, 0%Q)]
                   request1 server12 _ eq_refl eq_refl eq_refl _)).
  - rewrite runServer_gRPCServer_onReceive.
    apply runServer_onReceiveFunc_keeps_config.
  - repeat constructor.
Defined.

(** ** The transient-error simulation *)

(** C5. With [RandomServerError] off, [Export] never returns an
    [Unavailable] error. Whenever it returns one, the server is left as
    it was, and the same error comes back, with the server untouched,
    for every other request and every other callback: it is returned
    before the shard matching and without a delivery. *)
Theorem transient_error_outside_state_machine (strings_ToLower : string -> string)
    (s : gRPCServer) (ctx : context) (rnd : Q) (request : ExportRequest)
    (srv : mockServer) :
  (RandomServerError srv = false ->
   forall e, fst (Export strings_ToLower s ctx rnd request srv) = Fail e ->
             status_Code e <> codes_Unavailable) /\
  (forall e, fst (Export strings_ToLower s ctx rnd request srv) = Fail e ->
             status_Code e = codes_Unavailable ->
             snd (Export strings_ToLower s ctx rnd request srv) = srv /\
             forall f request',
               Export strings_ToLower {| onReceive := f; headers := headers s |}
                 ctx rnd request' srv = (Fail e, srv)).
Proof.
  destruct (checkRequiredHeaders strings_ToLower s ctx) as [e0|] eqn:Hc.
  - rewrite (Export_rejected _ _ _ _ _ _ e0 Hc). simpl.
    apply checkRequiredHeaders_plain in Hc.
    split.
    + intros _ e [= <-]. rewrite Hc. discriminate.
    + intros e [= <-] Hu. rewrite Hc in Hu. discriminate.
  - destruct (transient_drawn srv rnd) eqn:Hd.
    + rewrite (Export_unavailable _ _ _ _ _ _ Hc Hd). simpl. split.
      * intros Hoff. unfold transient_drawn in Hd. rewrite Hoff in Hd. discriminate.
      * intros e [= <-] _. split; [reflexivity|].
        intros f request'. now apply Export_unavailable.
    + rewrite (Export_matching _ _ _ _ _ _ Hc Hd).
      destruct (shardIsPartOfConfig (Shard request) (config srv)) as [[|]|];
        simpl; split; intros; discriminate.
Qed.

Lemma transient_error_outside_state_machine_witness :
  Export ToLower_ascii (runServer_gRPCServer ∅) None 0 request1 server12_flaky =
    (Fail (status_Err codes_Unavailable "Server is unavailable" 100000000),
     server12_flaky) /\
  Export ToLower_ascii (runServer_gRPCServer ∅) None 0
    {| Shard := None; Record_ := None |} server12_flaky =
    (Fail (status_Err codes_Unavailable "Server is unavailable" 100000000),
     server12_flaky).
Proof.
  destruct (transient_error_outside_state_machine ToLower_ascii
              (runServer_gRPCServer ∅) None 0 request1 server12_flaky)
    as [_ Hb].
  destruct (Hb (status_Err codes_Unavailable "Server is unavailable" 100000000)
              ltac:(vm_compute; reflexivity) eq_refl) as [Hs Hall].
  split.
  - exact (Hall runServer_onReceiveFunc request1).
  - exact (Hall runServer_onReceiveFunc {| Shard := None; Record_ := None |}).
Defined.

(** ** Reading the config *)

(** C6. [GetShardingConfig] is read-only: whatever it returns the server
    is left as it was; when the header check passes it returns the
    router's current config; and it does not depend on the write path:
    after a delivery into the sink it returns what it returned before. *)
Theorem GetShardingConfig_read_only (strings_ToLower : string -> string)
    (s : gRPCServer) (ctx : context) (srv : mockServer)
    (Hheaders : checkRequiredHeaders strings_ToLower s ctx = None) :
  GetShardingConfig strings_ToLower s ctx srv = (Return (config srv), srv) /\
  (forall ctx', snd (GetShardingConfig strings_ToLower s ctx' srv) = srv) /\
  (forall request,
     fst (GetShardingConfig strings_ToLower s ctx
            (runServer_onReceiveFunc request srv)) = Return (config srv)).
Proof.
  unfold GetShardingConfig. rewrite Hheaders. split; [reflexivity|]. split.
  - intros ctx'. destruct (checkRequiredHeaders strings_ToLower s ctx'); reflexivity.
  - reflexivity.
Qed.

Lemma GetShardingConfig_read_only_witness :
  GetShardingConfig ToLower_ascii (runServer_gRPCServer api_key_headers)
    ctx_with_key server12 = (Return (Some config12), server12).
Proof.
  exact (proj1 (GetShardingConfig_read_only ToLower_ascii
                  (runServer_gRPCServer api_key_headers) ctx_with_key server12
                  ltac:(vm_compute; reflexivity))).
Defined.

(** ** The encoder sink *)

Lemma wrap64_congr (a b : Z) : a mod 2 ^ 64 = b mod 2 ^ 64 -> wrap64 a = wrap64 b.
Proof.
  intros Hab. unfold wrap64.
  rewrite (Z.add_mod a), (Z.add_mod b), Hab by lia. reflexivity.
Qed.

Lemma wrap64_mod (z : Z) : wrap64 z mod 2 ^ 64 = z mod 2 ^ 64.
Proof.
  unfold wrap64.
  rewrite Zminus_mod, Z.mod_mod, <- Zminus_mod by lia.
  f_equal. lia.
Qed.

(** Adding wrapped numbers and wrapping is wrapping the sum. *)
Lemma wrap64_add (a b : Z) : wrap64 (wrap64 a + wrap64 b) = wrap64 (a + b).
Proof.
  apply wrap64_congr.
  rewrite Z.add_mod, !wrap64_mod, <- Z.add_mod by lia. reflexivity.
Qed.

Lemma wrap64_add_r (a b : Z) : wrap64 (wrap64 a + b) = wrap64 (a + b).
Proof.
  apply wrap64_congr.
  rewrite Z.add_mod, wrap64_mod, <- Z.add_mod by lia. reflexivity.
Qed.

Lemma sum_SpanCount_app (rs rs' : list EncodedRecord) :
  sum_SpanCount (rs ++ rs') = sum_SpanCount rs + sum_SpanCount rs'.
Proof.
  unfold sum_SpanCount. induction rs as [|r rs IH]; simpl; [reflexivity|].
  rewrite IH. lia.
Qed.

Lemma sum_SpanCount_nonneg (rs : list EncodedRecord) :
  Forall (fun r => 0 <= SpanCount r) rs -> 0 <= sum_SpanCount rs.
Proof.
  unfold sum_SpanCount. induction 1 as [|r rs Hr _ IH]; simpl; lia.
Qed.

Section encoder_sink_properties.

Context {Span shardInMemConfig EncoderErrorCode : Type}.
Implicit Types (es : encoderSink Span)
  (c : sink_call Span shardInMemConfig EncoderErrorCode)
  (cs : list (sink_call Span shardInMemConfig EncoderErrorCode)).

Lemma run_calls_snoc es cs c :
  run_calls es (cs ++ [c]) = run_call (run_calls es cs) c.
Proof. unfold run_calls. now rewrite fold_left_app. Qed.

Lemma ready_records_snoc cs c :
  ready_records (cs ++ [c]) = ready_records cs ++ ready_records [c].
Proof. unfold ready_records. now rewrite flat_map_app. Qed.

Lemma failed_spans_snoc cs c :
  failed_spans (cs ++ [c]) = failed_spans cs ++ failed_spans [c].
Proof. unfold failed_spans. now rewrite flat_map_app. Qed.

(** What the sink holds after a sequence of calls, the counters in the
    arithmetic of Go's [int]. *)
Lemma run_calls_contents cs :
  let es := run_calls encoderSink_zero cs in
  encodedRecords es = ready_records cs /\
  failedSpans es = failed_spans cs /\
  successSpanCount es = wrap64 (sum_SpanCount (ready_records cs)) /\
  failSpanCount es = wrap64 (Z.of_nat (length (failed_spans cs))).
Proof.
  induction cs as [|c cs IH] using rev_ind; [repeat split|].
  destruct IH as (Hr & Hf & Hs & Hn).
  rewrite run_calls_snoc, ready_records_snoc, failed_spans_snoc.
  destruct c as [record originalSpans shard | failed code]; simpl.
  - rewrite Hr, Hf, Hs, Hn, app_nil_r, sum_SpanCount_app.
    repeat split. unfold sum_SpanCount at 3. simpl.
    rewrite Z.add_0_r. apply wrap64_add.
  - rewrite Hr, Hf, Hs, Hn, !app_nil_r. repeat split.
    rewrite length_app, Nat2Z.inj_add. apply wrap64_add_r.
Qed.

Lemma counts_fit_app_l cs cs' : counts_fit (cs ++ cs') -> counts_fit cs.
Proof.
  unfold counts_fit, ready_records, failed_spans.
  rewrite !flat_map_app, Forall_app, sum_SpanCount_app, length_app.
  intros ((Hp & Hp') & Hs & Hl).
  apply sum_SpanCount_nonneg in Hp'.
  repeat split; [exact Hp | lia | lia].
Qed.

(** Within the range of [int] the counters are the exact sums. *)
Lemma run_calls_counters cs :
  counts_fit cs ->
  successSpanCount (run_calls encoderSink_zero cs) = sum_SpanCount (ready_records cs) /\
  failSpanCount (run_calls encoderSink_zero cs) = Z.of_nat (length (failed_spans cs)).
Proof.
  intros (Hp & Hs & Hl).
  destruct (run_calls_contents cs) as (_ & _ & -> & ->).
  apply sum_SpanCount_nonneg in Hp.
  split; apply wrap64_small; lia.
Qed.

(** C7, amended. The accumulators of the encoder sink: after any sequence of
    [onReady] and [onFail] calls on a new sink, the sink holds exactly
    the records and the failed spans of the calls, the success counter
    is the sum of [SpanCount] over the encoded records it holds and the
    failure counter is the number of failed spans it holds, both in the
    arithmetic of Go's [int]. With span counts that are counts and
    totals within the range of [int] the counters are the exact sums,
    and no call of the sequence makes the success counter decrease. *)
Theorem encoderSink_counters cs :
  let es := run_calls encoderSink_zero cs in
  getEncodedRecords es = ready_records cs /\
  getFailedSpans es = failed_spans cs /\
  getSuccessSpanCount es = wrap64 (sum_SpanCount (getEncodedRecords es)) /\
  getFailSpanCount es = wrap64 (Z.of_nat (length (getFailedSpans es))) /\
  (counts_fit cs ->
   getSuccessSpanCount es = sum_SpanCount (getEncodedRecords es) /\
   getFailSpanCount es = Z.of_nat (length (getFailedSpans es)) /\
   forall cs1 c cs2, cs = cs1 ++ c :: cs2 ->
     getSuccessSpanCount (run_calls encoderSink_zero cs1) <=
     getSuccessSpanCount (run_calls encoderSink_zero (cs1 ++ [c]))).
Proof.
  intros es. unfold getSuccessSpanCount, getFailSpanCount, getEncodedRecords,
    getFailedSpans. subst es.
  destruct (run_calls_contents cs) as (Hr & Hf & Hsw & Hnw).
  rewrite Hr, Hf.
  split; [reflexivity|]. split; [reflexivity|].
  split; [exact Hsw|]. split; [exact Hnw|].
  intros Hfit.
  destruct (run_calls_counters cs Hfit) as (Hs & Hn).
  split; [exact Hs|]. split; [exact Hn|].
  intros cs1 c cs2 ->.
  assert (Hfit1 : counts_fit (cs1 ++ [c])).
  { apply (counts_fit_app_l _ cs2). now rewrite <- app_assoc. }
  assert (Hfit0 : counts_fit cs1) by now apply (counts_fit_app_l _ [c]).
  destruct (run_calls_counters _ Hfit1) as (-> & _).
  destruct (run_calls_counters _ Hfit0) as (-> & _).
  rewrite ready_records_snoc, sum_SpanCount_app.
  destruct Hfit1 as (Hp & _). rewrite ready_records_snoc, Forall_app in Hp.
  destruct Hp as (_ & Hp). apply sum_SpanCount_nonneg in Hp. lia.
Qed.

End encoder_sink_properties.

Lemma encoderSink_counters_witness :
  let es := run_calls (encoderSink_zero (Span := nat))
              [call_onReady record_apple [1%nat; 2%nat; 3%nat] tt;
               call_onFail [4%nat; 5%nat] tt;
               call_onReady record_apple [6%nat; 7%nat; 8%nat] tt] in
  getSuccessSpanCount es = 6 /\ getFailSpanCount es = 2 /\
  getEncodedRecords es = [record_apple; record_apple] /\
  getFailedSpans es = [4%nat; 5%nat] /\
  getSuccessSpanCount
    (run_calls (encoderSink_zero (Span := nat))
       [call_onReady (shardInMemConfig := unit) (EncoderErrorCode := unit)
          record_apple [1%nat; 2%nat; 3%nat] tt]) <=
  getSuccessSpanCount
    (run_calls (encoderSink_zero (Span := nat))
       ([call_onReady (shardInMemConfig := unit) (EncoderErrorCode := unit)
           record_apple [1%nat; 2%nat; 3%nat] tt] ++
        [call_onFail [4%nat; 5%nat] tt])).
Proof.
  destruct (encoderSink_counters (Span := nat) (shardInMemConfig := unit)
              (EncoderErrorCode := unit)
              [call_onReady record_apple [1%nat; 2%nat; 3%nat] tt;
               call_onFail [4%nat; 5%nat] tt;
               call_onReady record_apple [6%nat; 7%nat; 8%nat] tt])
    as (Hr & Hf & _ & _ & Hexact).
  destruct Hexact as (Hs & Hn & Hmono).
  - split; [|split].
    + repeat constructor; simpl; lia.
    + vm_compute; reflexivity.
    + vm_compute; reflexivity.
  - cbv zeta. rewrite Hs, Hn, Hr, Hf.
    repeat (split; [reflexivity|]).
    exact (Hmono [call_onReady record_apple [1%nat; 2%nat; 3%nat] tt]
                 (call_onFail [4%nat; 5%nat] tt)
                 [call_onReady record_apple [6%nat; 7%nat; 8%nat] tt] eq_refl).
Defined.

(** C7, as stated, fails: [onReady] adds [int(record.SpanCount)] with no
    check of its sign, so on a new sink a record whose span count is -1
    makes the success counter go down from 0 to -1; and two records
    with 2^62 spans each leave the counter at -2^63, which is not the
    sum 2^63 of their span counts. *)
Lemma encoderSink_onReady_can_decrease :
  let minus_one := {| PartitionKey := "k"; SpanCount := -1; Payload := [] |} in
  let huge := {| PartitionKey := "k"; SpanCount := 2 ^ 62; Payload := [] |} in
  let es0 := encoderSink_zero (Span := nat) in
  let es1 := onReady (shardInMemConfig := unit) es0 minus_one [] tt in
  let es2 := onReady (shardInMemConfig := unit)
               (onReady (shardInMemConfig := unit) es0 huge [] tt) huge [] tt in
  getSuccessSpanCount es0 = 0 /\
  getSuccessSpanCount es1 = -1 /\
  ~ (getSuccessSpanCount es0 <= getSuccessSpanCount es1) /\
  getEncodedRecords es2 = [huge; huge] /\
  getSuccessSpanCount es2 = - 2 ^ 63 /\
  getSuccessSpanCount es2 <> sum_SpanCount (getEncodedRecords es2).
Proof.
  cbv zeta. split; [reflexivity|]. split; [reflexivity|].
  split; [vm_compute; intros H; apply H; reflexivity|].
  split; [reflexivity|]. split; [vm_compute; reflexivity|].
  vm_compute. discriminate.
Qed.

(** A span count below zero makes the success counter go down, and
    counts beyond the range of [int] wrap around. *)
Example encoderSink_out_of_range :
  getSuccessSpanCount
    (run_calls (encoderSink_zero (Span := nat))
       [call_onReady (shardInMemConfig := unit) (EncoderErrorCode := unit)
          {| PartitionKey := "k"; SpanCount := -1; Payload := [] |} [] tt]) = -1 /\
  getSuccessSpanCount
    (run_calls (encoderSink_zero (Span := nat))
       [call_onReady (shardInMemConfig := unit) (EncoderErrorCode := unit)
          {| PartitionKey := "k"; SpanCount := 2 ^ 62; Payload := [] |} [] tt;
        call_onReady
          {| PartitionKey := "k"; SpanCount := 2 ^ 62; Payload := [] |} [] tt])
    = - 2 ^ 63.
Proof. split; vm_compute; reflexivity. Qed.

(** ** The waiting intervals of [WaitForN] *)

(** The interval after [k] doublings, the doubling stopping at the
    seventh: 5, 10, 20, 40, 80, 160, 320, 640 ms. *)
Lemma interval_step (k : nat) :
  (k <= 7)%nat ->
  let w := time_Millisecond * 5 * 2 ^ Z.of_nat k in
  (if w <? time_Millisecond * 500 then wrap64 (w * 2) else w) =
  time_Millisecond * 5 * 2 ^ Z.of_nat (Nat.min (k + 1) 7).
Proof.
  intros Hk.
  do 8 (destruct k as [|k]; [vm_compute; reflexivity|]). lia.
Qed.





(** The loop gives up once the time is out, and the timed-out turn has
    still waited. *)
Example WaitForN_timeout :
  WaitForN [(false, 5); (false, 16); (false, 40)] 30 =
    (Some false, map (Z.mul time_Millisecond) [5; 10; 20]).
Proof. vm_compute; reflexivity. Qed.

(** * Further properties *)

(** ** Shard matching *)

(** X1. Every definition of a config is recognised as part of that
    config: a client that takes its shard from the router's current
    config is never told that it mismatches. *)
Theorem shardIsPartOfConfig_own_definition (d : ShardDefinition)
    (cfg : ShardingConfig) (Hin : In d (ShardDefinitions cfg)) :
  shardIsPartOfConfig (Some d) (Some cfg) = Some true.
Proof.
  destruct (shardIsPartOfConfig_spec d cfg) as [[_ Hr] | [Hno _]]; [exact Hr|].
  exfalso. apply Hno. exists d. split; [exact Hin | apply exact_match_refl].
Qed.

Lemma shardIsPartOfConfig_own_definition_witness :
  shardIsPartOfConfig (Some shard2) (Some config12) = Some true.
Proof.
  apply shardIsPartOfConfig_own_definition. simpl. right. left. reflexivity.
Defined.

(** X2. The answer of [shardIsPartOfConfig] depends only on which
    definitions the config holds, not on their order and not on how
    often one is repeated. *)
Theorem shardIsPartOfConfig_same_definitions (sh : ShardDefinition)
    (cfg cfg' : ShardingConfig)
    (Hsame : forall d, In d (ShardDefinitions cfg) <-> In d (ShardDefinitions cfg')) :
  shardIsPartOfConfig (Some sh) (Some cfg) = shardIsPartOfConfig (Some sh) (Some cfg').
Proof.
  assert (Hiff : matches_config sh cfg <-> matches_config sh cfg').
  { unfold matches_config. split; intros (d & Hin & Hm); exists d;
      (split; [now apply Hsame | exact Hm]). }
  destruct (shardIsPartOfConfig_spec sh cfg) as [[Hm ->] | [Hm ->]],
           (shardIsPartOfConfig_spec sh cfg') as [[Hm' ->] | [Hm' ->]];
    tauto.
Qed.

Lemma shardIsPartOfConfig_same_definitions_witness :
  shardIsPartOfConfig (Some shard1) (Some config12) =
  shardIsPartOfConfig (Some shard1)
    (Some {| ShardDefinitions := [shard2; shard1; shard2] |}).
Proof.
  apply shardIsPartOfConfig_same_definitions. intros d. simpl. tauto.
Defined.

(** The function panics exactly on a nil config, and on a nil shard when
    the config has a definition to compare it with. *)
Lemma shardIsPartOfConfig_None (shard : option ShardDefinition)
    (cfg : option ShardingConfig) :
  shardIsPartOfConfig shard cfg = None <->
  cfg = None \/
  (shard = None /\ exists c, cfg = Some c /\ ShardDefinitions c <> []).
Proof.
  destruct cfg as [c|]; simpl; [|tauto].
  destruct shard as [sh|].
  - destruct (shardIsPartOfConfig_spec sh c) as [[_ Hr] | [_ Hr]];
      simpl in Hr; rewrite Hr; split; [discriminate | | discriminate |];
      intros [[=] | ([=] & _)].
  - destruct (ShardDefinitions c) as [|d defs] eqn:Hd; simpl.
    + split; [discriminate|]. intros [[=] | (_ & c' & [= <-] & Hne)].
      congruence.
    + split; [|reflexivity]. intros _. right. split; [reflexivity|].
      exists c. split; [reflexivity|]. rewrite Hd. discriminate.
Qed.

(** X3. [Export] panics exactly when the call passes the header check,
    no transient error is drawn, and the matching dereferences a nil
    pointer: the server has no config, or the request has no shard and
    the config has a definition to compare it with. *)
Theorem Export_panic_iff (strings_ToLower : string -> string)
    (s : gRPCServer) (ctx : context) (rnd : Q) (request : ExportRequest)
    (srv : mockServer) :
  fst (Export strings_ToLower s ctx rnd request srv) = Panic <->
  checkRequiredHeaders strings_ToLower s ctx = None /\
  transient_drawn srv rnd = false /\
  (config srv = None \/
   (Shard request = None /\
    exists c, config srv = Some c /\ ShardDefinitions c <> [])).
Proof.
  rewrite <- shardIsPartOfConfig_None.
  destruct (checkRequiredHeaders strings_ToLower s ctx) as [e|] eqn:Hc.
  - rewrite (Export_rejected _ _ _ _ _ _ e Hc). simpl.
    split; [discriminate | intros ([=] & _)].
  - destruct (transient_drawn srv rnd) eqn:Hd.
    + rewrite (Export_unavailable _ _ _ _ _ _ Hc Hd). simpl.
      split; [discriminate | intros (_ & [=] & _)].
    + rewrite (Export_matching _ _ _ _ _ _ Hc Hd).
      destruct (shardIsPartOfConfig (Shard request) (config srv)) as [[|]|];
        simpl; split; try discriminate; try tauto;
        intros (_ & _ & [=]).
Qed.

(** A request without a shard: against the empty config of a new server
    it is a mismatch, against a config with definitions it panics. *)
Example Export_without_shard :
  Export ToLower_ascii (runServer_gRPCServer ∅) None 0
    {| Shard := None; Record_ := Some record_apple |} newMockServer =
    (Return {| ResultCode := ExportResponse_SHARD_CONFIG_MISTMATCH;
               ShardingConfig_ := Some {| ShardDefinitions := [] |} |},
     newMockServer) /\
  Export ToLower_ascii (runServer_gRPCServer ∅) None 0
    {| Shard := None; Record_ := Some record_apple |} server12 = (Panic, server12).
Proof. split; vm_compute; reflexivity. Qed.

(** ** The order of hash keys *)

Lemma lex_lt_trans (a b c : list byte) : lex_lt a b -> lex_lt b c -> lex_lt a c.
Proof.
  intros Hab. revert c. induction Hab as [y b | x y a b Hxy | x a b Hab IH];
    intros c Hbc; inversion Hbc; subst.
  - constructor.
  - constructor.
  - apply lex_lt_first. lia.
  - now apply lex_lt_first.
  - now apply lex_lt_first.
  - apply lex_lt_rest. now apply IH.
Qed.

Lemma bytes_Compare_lt (a b : list byte) : bytes_Compare a b = -1 <-> lex_lt a b.
Proof.
  destruct (bytes_Compare_lex a b) as [[Hr Hl] | [[Hr Hl] | [Hr Hl]]]; rewrite Hr.
  - tauto.
  - split; [discriminate|]. subst b. intros H. now apply lex_lt_irrefl in H.
  - split; [discriminate|]. intros H.
    exfalso. apply (lex_lt_irrefl a). now apply (lex_lt_trans a b a).
Qed.

Lemma bytes_Compare_antisym (a b : list byte) :
  bytes_Compare b a = - bytes_Compare a b.
Proof.
  revert b. induction a as [|x a IH]; intros [|y b]; simpl; try reflexivity.
  rewrite (N.compare_antisym (Byte.to_N x) (Byte.to_N y)).
  destruct (N.compare (Byte.to_N x) (Byte.to_N y)); simpl;
    [apply IH | reflexivity | reflexivity].
Qed.

(** X4. [compareHashKey] compares like a total order on the keys, nil
    keys being empty ones: the result is -1, 0 or 1, swapping the keys
    negates it, it is 0 exactly for equal byte sequences, and "less
    than" is transitive. *)
Theorem compareHashKey_total_order (k1 k2 k3 : option (list byte)) :
  (compareHashKey k1 k2 = -1 \/ compareHashKey k1 k2 = 0 \/ compareHashKey k1 k2 = 1) /\
  compareHashKey k2 k1 = - compareHashKey k1 k2 /\
  (compareHashKey k1 k2 = 0 <-> nil_to_empty k1 = nil_to_empty k2) /\
  (compareHashKey k1 k2 = -1 -> compareHashKey k2 k3 = -1 ->
   compareHashKey k1 k3 = -1).
Proof.
  rewrite !compareHashKey_unfold.
  split; [|split; [|split]].
  - destruct (bytes_Compare_lex (nil_to_empty k1) (nil_to_empty k2))
      as [[Hr _] | [[Hr _] | [Hr _]]]; tauto.
  - apply bytes_Compare_antisym.
  - apply bytes_Compare_eq.
  - rewrite !bytes_Compare_lt. apply lex_lt_trans.
Qed.

Lemma compareHashKey_total_order_witness :
  compareHashKey None (Some [xff]) = -1.
Proof.
  exact (proj2 (proj2 (proj2 (compareHashKey_total_order
                                None (Some [x6d]) (Some [xff]))))
           eq_refl eq_refl).
Defined.

(** ** More on the header check *)



Lemma checkRequiredHeaders_range_ext (strings_ToLower : string -> string)
    (md md' : gmap string (list string)) (kvs : list (string * string)) :
  (forall k v, (k, v) ∈ kvs ->
     MD_Get strings_ToLower md' k = MD_Get strings_ToLower md k) ->
  checkRequiredHeaders_range strings_ToLower md' kvs =
  checkRequiredHeaders_range strings_ToLower md kvs.
Proof.
  induction kvs as [|[k v] kvs IH]; intros Hget; simpl; [reflexivity|].
  rewrite (Hget k v) by (apply elem_of_cons; now left).
  rewrite IH; [reflexivity|].
  intros k' v' Hin. apply (Hget k' v'). now right.
Qed.

(** X6. The check looks at the required headers only: a header of the
    request that is not the lower-cased name of a required one changes
    nothing, whatever its values. *)
Theorem checkRequiredHeaders_ignores_other_headers
    (strings_ToLower : string -> string) (s : gRPCServer)
    (md : gmap string (list string)) (name : string) (vals : list string)
    (Hother : forall k v, headers s !! k = Some v -> strings_ToLower k <> name) :
  checkRequiredHeaders strings_ToLower s (Some (<[name := vals]> md)) =
  checkRequiredHeaders strings_ToLower s (Some md).
Proof.
  unfold checkRequiredHeaders, metadata_FromIncomingContext.
  destruct (size (headers s) <? 1)%nat; [reflexivity|].
  apply checkRequiredHeaders_range_ext.
  intros k v Hin. apply elem_of_map_to_list in Hin.
  unfold MD_Get. rewrite lookup_insert_ne; [reflexivity|].
  intros Heq. now apply (Hother k v Hin).
Qed.

Lemma checkRequiredHeaders_ignores_other_headers_witness :
  checkRequiredHeaders ToLower_ascii (runServer_gRPCServer api_key_headers)
    (Some (<[ "user-agent" := ["grpc-go"; "test"] ]>
             {[ "x-api-key" := ["secret"] ]})) =
  checkRequiredHeaders ToLower_ascii (runServer_gRPCServer api_key_headers)
    (Some {[ "x-api-key" := ["secret"] ]}).
Proof.
  apply checkRequiredHeaders_ignores_other_headers.
  intros k v Hk. rewrite runServer_gRPCServer_headers in Hk.
  unfold api_key_headers in Hk.
  apply lookup_singleton_Some in Hk as [<- _].
  vm_compute. discriminate.
Defined.

(** ** The server of [runServer] *)

Lemma accepted_same_config (strings_ToLower : string -> string) (s : gRPCServer)
    (srv srv' : mockServer) (c : context * Q * ExportRequest) :
  config srv' = config srv ->
  RandomServerError srv' = RandomServerError srv ->
  accepted strings_ToLower s srv' c = accepted strings_ToLower s srv c.
Proof.
  intros Hc Hr. destruct c as [[ctx rnd] request].
  unfold accepted, transient_drawn. now rewrite Hc, Hr.
Qed.

(** One call on the server of [runServer]: an accepted call stores the
    request, any other call leaves the server as it was; a panic is not
    an accepted call. *)
Lemma Export_runServer_step (strings_ToLower : string -> string)
    (s : gRPCServer) (ctx : context) (rnd : Q) (request : ExportRequest)
    (srv : mockServer) :
  onReceive s = runServer_onReceiveFunc ->
  snd (Export strings_ToLower s ctx rnd request srv) =
    (if accepted strings_ToLower s srv (ctx, rnd, request)
     then set_Sink srv (mockServerSink_onReceive (Sink srv) request)
     else srv) /\
  (fst (Export strings_ToLower s ctx rnd request srv) = Panic ->
   accepted strings_ToLower s srv (ctx, rnd, request) = false).
Proof.
  intros Hcb. unfold accepted.
  destruct (checkRequiredHeaders strings_ToLower s ctx) as [e|] eqn:Hc.
  - rewrite (Export_rejected _ _ _ _ _ _ e Hc). split; reflexivity.
  - destruct (transient_drawn srv rnd) eqn:Hd.
    + rewrite (Export_unavailable _ _ _ _ _ _ Hc Hd). split; reflexivity.
    + rewrite (Export_matching _ _ _ _ _ _ Hc Hd).
      destruct (shardIsPartOfConfig (Shard request) (config srv)) as [[|]|];
        simpl; try (split; [reflexivity|]; try reflexivity; discriminate).
      rewrite Hcb. split; [reflexivity | discriminate].
Qed.

(** X7. On the server that [runServer] starts, [Export] changes nothing
    but the sink: the config, the next response and the error simulation
    are as before; the sink gains the request and its record, at the
    end, exactly when the call passed both gates and its shard is part
    of the config, and is untouched otherwise. *)
Theorem Export_runServer_frame (strings_ToLower : string -> string)
    (h : gmap string string) (ctx : context) (rnd : Q)
    (request : ExportRequest) (srv : mockServer) :
  let s := runServer_gRPCServer h in
  let srv' := snd (Export strings_ToLower s ctx rnd request srv) in
  config srv' = config srv /\
  nextResponseCode srv' = nextResponseCode srv /\
  nextResponseShardingConfig srv' = nextResponseShardingConfig srv /\
  RandomServerError srv' = RandomServerError srv /\
  (accepted strings_ToLower s srv (ctx, rnd, request) = true ->
   requests (Sink srv') = requests (Sink srv) ++ [request] /\
   GetRecords (Sink srv') = GetRecords (Sink srv) ++ [Record_ request]) /\
  (accepted strings_ToLower s srv (ctx, rnd, request) = false ->
   Sink srv' = Sink srv).
Proof.
  intros s srv'. subst srv'.
  destruct (Export_runServer_step strings_ToLower s ctx rnd request srv
              (runServer_gRPCServer_onReceive h)) as [-> _].
  destruct (accepted strings_ToLower s srv (ctx, rnd, request)); simpl;
    repeat split; discriminate.
Qed.

Lemma Export_runServer_frame_witness :
  GetRecords (Sink (snd (Export ToLower_ascii (runServer_gRPCServer ∅) None 0
                           request1 server12))) = [Some record_apple] /\
  Sink (snd (Export ToLower_ascii (runServer_gRPCServer ∅) None 0
               request1 server2)) = Sink server2.
Proof.
  destruct (Export_runServer_frame ToLower_ascii ∅ None 0 request1 server12)
    as (_ & _ & _ & _ & Hacc & _).
  destruct (Export_runServer_frame ToLower_ascii ∅ None 0 request1 server2)
    as (_ & _ & _ & _ & _ & Hrej).
  split.
  - exact (proj2 (Hacc eq_refl)).
  - exact (Hrej eq_refl).
Defined.

Arguments accepted : simpl never.

(** A session on a server whose callback is the one of [runServer]. *)
Lemma serve_runServer (strings_ToLower : string -> string) (s : gRPCServer)
    (Hcb : onReceive s = runServer_onReceiveFunc)
    (calls : list (context * Q * ExportRequest)) :
  forall srv,
    let rs := fst (serve strings_ToLower s calls srv) in
    let srv' := snd (serve strings_ToLower s calls srv) in
    let stored :=
      map snd (List.filter (accepted strings_ToLower s srv)
                 (take (length rs) calls)) in
    requests (Sink srv') = requests (Sink srv) ++ stored /\
    records (Sink srv') = records (Sink srv) ++ map Record_ stored /\
    config srv' = config srv /\
    nextResponseCode srv' = nextResponseCode srv /\
    nextResponseShardingConfig srv' = nextResponseShardingConfig srv /\
    RandomServerError srv' = RandomServerError srv /\
    (Forall (fun r => r <> Panic) rs -> length rs = length calls).
Proof.
  induction calls as [|[[ctx rnd] request] rest IH]; intros srv; simpl.
  - rewrite !app_nil_r. repeat split.
  - destruct (Export_runServer_step strings_ToLower s ctx rnd request srv Hcb)
      as [Hstate Hpanic].
    destruct (Export strings_ToLower s ctx rnd request srv) as [r srv1] eqn:He.
    simpl in Hstate, Hpanic.
    assert (Hkeep : config srv1 = config srv /\
                    RandomServerError srv1 = RandomServerError srv).
    { rewrite Hstate.
      destruct (accepted strings_ToLower s srv (ctx, rnd, request)); split; reflexivity. }
    destruct Hkeep as [Hk1 Hk2].
    assert (Hacc : forall c, accepted strings_ToLower s srv1 c =
                             accepted strings_ToLower s srv c)
      by (intros c; now apply accepted_same_config).
    specialize (IH srv1).
    destruct (serve strings_ToLower s rest srv1) as [rs srv2] eqn:Hs.
    simpl in IH. rewrite (List.filter_ext _ _ Hacc) in IH.
    destruct IH as (I1 & I2 & I3 & I4 & I5 & I6 & I7).
    assert (Hstep :
      requests (Sink srv2) =
        requests (Sink srv) ++
        map snd (List.filter (accepted strings_ToLower s srv)
                   ((ctx, rnd, request) :: take (length rs) rest)) /\
      records (Sink srv2) =
        records (Sink srv) ++
        map Record_
          (map snd (List.filter (accepted strings_ToLower s srv)
                      ((ctx, rnd, request) :: take (length rs) rest))) /\
      config srv2 = config srv /\
      nextResponseCode srv2 = nextResponseCode srv /\
      nextResponseShardingConfig srv2 = nextResponseShardingConfig srv /\
      RandomServerError srv2 = RandomServerError srv).
    { rewrite I1, I2, I3, I4, I5, I6, Hstate. simpl.
      destruct (accepted strings_ToLower s srv (ctx, rnd, request)); simpl;
        rewrite <- ?app_assoc; repeat split. }
    destruct r as [resp | e |]; simpl.
    + destruct Hstep as (S1 & S2 & S3 & S4 & S5 & S6).
      repeat (split; [assumption|]).
      intros Hall. inversion Hall; subst. f_equal. now apply I7.
    + destruct Hstep as (S1 & S2 & S3 & S4 & S5 & S6).
      repeat (split; [assumption|]).
      intros Hall. inversion Hall; subst. f_equal. now apply I7.
    + rewrite (Hpanic eq_refl) in Hstate. subst srv1.
      rewrite (Hpanic eq_refl). simpl.
      rewrite !app_nil_r. repeat (split; [reflexivity|]).
      intros Hall. inversion Hall; subst. congruence.
Qed.

(** X8. A session on the server that [runServer] starts: after the
    calls, served in order until one panics, the sink holds what it held
    before followed by the requests, and their records, of exactly the
    served calls that passed both gates with a shard that is part of the
    config, in the order of the calls; the rest of the server is as
    before; and when no call panicked every call was served. *)
Theorem serve_stores_accepted_requests (strings_ToLower : string -> string)
    (h : gmap string string) (calls : list (context * Q * ExportRequest))
    (srv : mockServer) :
  let s := runServer_gRPCServer h in
  let rs := fst (serve strings_ToLower s calls srv) in
  let srv' := snd (serve strings_ToLower s calls srv) in
  let stored :=
    map snd (List.filter (accepted strings_ToLower s srv)
               (take (length rs) calls)) in
  requests (Sink srv') = requests (Sink srv) ++ stored /\
  GetRecords (Sink srv') = GetRecords (Sink srv) ++ map Record_ stored /\
  config srv' = config srv /\
  nextResponseCode srv' = nextResponseCode srv /\
  nextResponseShardingConfig srv' = nextResponseShardingConfig srv /\
  RandomServerError srv' = RandomServerError srv /\
  (Forall (fun r => r <> Panic) rs -> length rs = length calls).
Proof.
  intros s. apply serve_runServer. apply runServer_gRPCServer_onReceive.
Qed.

(** A session of four calls: a match, a mismatch, a call without the
    required header and another match; two records reach the sink. *)
Example serve_four_calls :
  let s := runServer_gRPCServer api_key_headers in
  let other := {| Shard := Some shard2;
                  Record_ := Some {| PartitionKey := "pear"; SpanCount := 1;
                                     Payload := [] |} |} in
  serve ToLower_ascii s
    [(ctx_with_key, 0%Q, request1);
     (ctx_with_key, 0%Q, {| Shard := Some shard1_empty; Record_ := None |});
     (None, 0%Q, request1);
     (ctx_with_key, (1 # 2)%Q, other)] server2 =
  ([Return {| ResultCode := ExportResponse_SHARD_CONFIG_MISTMATCH;
              ShardingConfig_ := Some config2 |};
    Return {| ResultCode := ExportResponse_SHARD_CONFIG_MISTMATCH;
              ShardingConfig_ := Some config2 |};
    Fail (errors_New "missing expected headers: no metadata on context");
    Return {| ResultCode := ExportResponse_OK; ShardingConfig_ := None |}],
   set_Sink server2 {| requests := [other]; records := [Record_ other] |}).
Proof. vm_compute; reflexivity. Qed.

(** ** Replacing the config and resending *)

(** X9. Resending after a mismatch: when a call reaches the matching
    and its shard is not part of the config, the server has a config,
    the response carries exactly that config, and the server is as it
    was; the same record sent again with any definition of the attached
    config as its shard, in a call that passes both gates, is delivered
    to the callback. *)
Theorem Export_resend_after_mismatch (strings_ToLower : string -> string)
    (s : gRPCServer) (ctx ctx' : context) (rnd rnd' : Q)
    (request : ExportRequest) (srv : mockServer) (d : ShardDefinition)
    (Hheaders : checkRequiredHeaders strings_ToLower s ctx = None)
    (Hdraw : transient_drawn srv rnd = false)
    (Hno : shardIsPartOfConfig (Shard request) (config srv) = Some false)
    (Hheaders' : checkRequiredHeaders strings_ToLower s ctx' = None)
    (Hdraw' : transient_drawn srv rnd' = false) :
  exists cfg,
    config srv = Some cfg /\
    Export strings_ToLower s ctx rnd request srv =
      (Return {| ResultCode := ExportResponse_SHARD_CONFIG_MISTMATCH;
                 ShardingConfig_ := Some cfg |}, srv) /\
    (In d (ShardDefinitions cfg) ->
     let resent := {| Shard := Some d; Record_ := Record_ request |} in
     let srv' := onReceive s resent srv in
     Export strings_ToLower s ctx' rnd' resent srv =
       (Return {| ResultCode := nextResponseCode srv';
                  ShardingConfig_ := nextResponseShardingConfig srv' |}, srv')).
Proof.
  destruct (config srv) as [cfg|] eqn:Hcfg; [|discriminate Hno].
  exists cfg. split; [reflexivity|]. split.
  - rewrite (Export_matching _ _ _ _ _ _ Hheaders Hdraw), Hcfg, Hno.
    reflexivity.
  - intros Hin resent srv'.
    rewrite (Export_matching _ _ _ _ _ _ Hheaders' Hdraw'), Hcfg. simpl.
    change (shardIsPartOfConfig_range (Some d) (ShardDefinitions cfg))
      with (shardIsPartOfConfig (Some d) (Some cfg)).
    destruct (shardIsPartOfConfig_spec d cfg) as [[_ ->] | [Hn _]]; [reflexivity|].
    exfalso. apply Hn. exists d. split; [exact Hin | apply exact_match_refl].
Qed.

Lemma Export_resend_after_mismatch_witness :
  Export ToLower_ascii (runServer_gRPCServer ∅) None 0 request1 server2 =
    (Return {| ResultCode := ExportResponse_SHARD_CONFIG_MISTMATCH;
               ShardingConfig_ := Some config2 |}, server2) /\
  fst (Export ToLower_ascii (runServer_gRPCServer ∅) None 0
         {| Shard := Some shard2; Record_ := Record_ request1 |} server2) =
    Return {| ResultCode := ExportResponse_OK; ShardingConfig_ := None |}.
Proof.
  assert (Hh : checkRequiredHeaders ToLower_ascii (runServer_gRPCServer ∅) None
               = None) by (vm_compute; reflexivity).
  assert (Hno : shardIsPartOfConfig (Shard request1) (config server2) = Some false)
    by (vm_compute; reflexivity).
  destruct (Export_resend_after_mismatch ToLower_ascii (runServer_gRPCServer ∅)
              None None 0 0 request1 server2 shard2
              Hh eq_refl Hno Hh eq_refl) as (cfg & Hcfg & He & Hre).
  assert (Heq : cfg = config2) by (simpl in Hcfg; congruence).
  subst cfg. split; [exact He|].
  rewrite (Hre ltac:(left; reflexivity)). reflexivity.
Defined.

(** X10. A server with an empty config, as [newMockServer] makes it,
    owns no shard: every call that passes both gates, with any shard or
    none, is answered with a mismatch and the empty config; it never
    panics and nothing is delivered. *)
Theorem Export_empty_config (strings_ToLower : string -> string)
    (s : gRPCServer) (ctx : context) (rnd : Q) (request : ExportRequest)
    (srv : mockServer) (cfg : ShardingConfig)
    (Hconfig : config srv = Some cfg)
    (Hempty : ShardDefinitions cfg = [])
    (Hheaders : checkRequiredHeaders strings_ToLower s ctx = None)
    (Hdraw : transient_drawn srv rnd = false) :
  Export strings_ToLower s ctx rnd request srv =
    (Return {| ResultCode := ExportResponse_SHARD_CONFIG_MISTMATCH;
               ShardingConfig_ := Some cfg |}, srv).
Proof.
  rewrite (Export_matching _ _ _ _ _ _ Hheaders Hdraw), Hconfig. simpl.
  rewrite Hempty. reflexivity.
Qed.

Lemma Export_empty_config_witness :
  Export ToLower_ascii (runServer_gRPCServer api_key_headers) ctx_with_key 0
    {| Shard := None; Record_ := None |} newMockServer =
    (Return {| ResultCode := ExportResponse_SHARD_CONFIG_MISTMATCH;
               ShardingConfig_ := Some {| ShardDefinitions := [] |} |},
     newMockServer).
Proof.
  apply Export_empty_config; [reflexivity | reflexivity | | reflexivity].
  vm_compute; reflexivity.
Defined.

(** X11. [SetConfig] replaces the config and nothing else, the last
    write wins, and the handlers see the new config at once:
    [GetShardingConfig] returns it, and a call that reaches the matching
    with a shard that is not part of it is answered with a mismatch
    that carries it, whatever the config was before. *)
Theorem SetConfig_replaces_config (strings_ToLower : string -> string)
    (s : gRPCServer) (ctx : context) (rnd : Q) (request : ExportRequest)
    (c0 c : option ShardingConfig) (srv : mockServer)
    (Hheaders : checkRequiredHeaders strings_ToLower s ctx = None)
    (Hdraw : transient_drawn srv rnd = false)
    (Hno : shardIsPartOfConfig (Shard request) c = Some false) :
  let srv' := snd (SetConfig c srv) in
  fst (SetConfig c srv) = Return tt /\
  Sink srv' = Sink srv /\
  RandomServerError srv' = RandomServerError srv /\
  nextResponseCode srv' = nextResponseCode srv /\
  nextResponseShardingConfig srv' = nextResponseShardingConfig srv /\
  snd (SetConfig c (snd (SetConfig c0 srv))) = srv' /\
  GetShardingConfig strings_ToLower s ctx srv' = (Return c, srv') /\
  Export strings_ToLower s ctx rnd request srv' =
    (Return {| ResultCode := ExportResponse_SHARD_CONFIG_MISTMATCH;
               ShardingConfig_ := c |}, srv').
Proof.
  intros srv'. subst srv'. unfold SetConfig, modify. simpl.
  repeat (split; [reflexivity|]). split.
  - unfold GetShardingConfig. rewrite Hheaders. reflexivity.
  - rewrite Export_matching; [|exact Hheaders | exact Hdraw].
    simpl. rewrite Hno. reflexivity.
Qed.

Lemma SetConfig_replaces_config_witness :
  Export ToLower_ascii (runServer_gRPCServer ∅) None 0 request1
    (snd (SetConfig (Some config2) server12)) =
  (Return {| ResultCode := ExportResponse_SHARD_CONFIG_MISTMATCH;
             ShardingConfig_ := Some config2 |},
   snd (SetConfig (Some config2) server12)).
Proof.
  assert (Hh : checkRequiredHeaders ToLower_ascii (runServer_gRPCServer ∅) None
               = None) by (vm_compute; reflexivity).
  assert (Hno : shardIsPartOfConfig (Shard request1) (Some config2) = Some false)
    by (vm_compute; reflexivity).
  exact (proj2 (proj2 (proj2 (proj2 (proj2 (proj2 (proj2
    (SetConfig_replaces_config ToLower_ascii (runServer_gRPCServer ∅) None 0
       request1 None (Some config2) server12 Hh eq_refl Hno)))))))).
Defined.

(** ** The result of [WaitForN] *)

Lemma next_interval (t : nat) :
  (if interval t <? time_Millisecond * 500
   then wrap64 (interval t * 2) else interval t) = interval (S t).
Proof.
  unfold interval.
  rewrite (interval_step (Nat.min t 7)) by lia.
  do 3 f_equal. lia.
Qed.

(** While the condition is false and the time is not out the loop goes
    on, waiting for the intervals of its turns. *)
Lemma WaitForN_loop_keeps_waiting (n : nat) :
  forall (seen : list (bool * Z)) (duration : Z) (t : nat),
    keeps_waiting seen duration n ->
    WaitForN_loop seen duration (interval t) =
    (fst (WaitForN_loop (drop n seen) duration (interval (t + n))),
     map interval (seq t n) ++
     snd (WaitForN_loop (drop n seen) duration (interval (t + n)))).
Proof.
  induction n as [|n IH]; intros seen duration t Hkeep.
  - rewrite drop_0, Nat.add_0_r. simpl.
    now destruct (WaitForN_loop seen duration (interval t)).
  - destruct (Hkeep 0%nat ltac:(lia)) as (e & H0 & He).
    destruct seen as [|[c e'] rest]; [discriminate H0|].
    simpl in H0. injection H0 as -> ->.
    assert (Hrest : keeps_waiting rest duration n).
    { intros i Hi. apply (Hkeep (S i)). lia. }
    cbn [WaitForN_loop drop seq map].
    rewrite next_interval.
    replace (e >? duration) with false.
    + rewrite (IH rest duration (S t) Hrest).
      replace (S t + n)%nat with (t + S n)%nat by lia. reflexivity.
    + symmetry. rewrite Z.gtb_ltb. apply Z.ltb_ge. exact He.
Qed.

(** X12. [WaitForN] returns true at the first turn in which the
    condition holds, provided the time was not out in an earlier turn;
    it has then waited for the intervals of the earlier turns and for
    nothing else. With the condition true at once it returns true
    without waiting, whatever the duration, zero or negative also. *)
Theorem WaitForN_true (seen : list (bool * Z)) (duration : Z) (n : nat) (elapsed : Z)
    (Hkeep : keeps_waiting seen duration n)
    (Hcond : seen !! n = Some (true, elapsed)) :
  WaitForN seen duration = (Some true, intervals n).
Proof.
  unfold WaitForN, intervals.
  change (time_Millisecond * 5) with (interval 0).
  rewrite (WaitForN_loop_keeps_waiting n seen duration 0 Hkeep).
  destruct (drop n seen) as [|[c e] rest] eqn:Hd.
  - apply (f_equal (fun l => l !! 0%nat)) in Hd.
    rewrite lookup_drop, Nat.add_0_r, Hcond in Hd. discriminate Hd.
  - apply (f_equal (fun l => l !! 0%nat)) in Hd.
    rewrite lookup_drop, Nat.add_0_r, Hcond in Hd. injection Hd as <- <-.
    simpl. now rewrite app_nil_r.
Qed.

Lemma WaitForN_true_witness :
  WaitForN [(false, 5); (false, 15); (true, 35)] 30 =
    (Some true, [time_Millisecond * 5; time_Millisecond * 10]) /\
  WaitForN [(true, 0)] (-1) = (Some true, []).
Proof.
  split.
  - apply (WaitForN_true [(false, 5); (false, 15); (true, 35)] 30 2 35);
      [|reflexivity].
    intros [|[|i]] Hi; [exists 5 | exists 15 | lia]; split; (reflexivity || lia).
  - apply (WaitForN_true [(true, 0)] (-1) 0 0); [|reflexivity].
    intros i Hi. lia.
Defined.

(** X13. [WaitForN] returns false at the first turn that finds the time
    out with the condition still false; by then it has waited in that
    turn too: with a condition that is false it waits 5 ms at least,
    also when the duration is zero or negative. The test is strict: at
    an elapsed time equal to the duration the loop goes on. *)
Theorem WaitForN_false (seen : list (bool * Z)) (duration : Z) (n : nat) (elapsed : Z)
    (Hkeep : keeps_waiting seen duration n)
    (Hcond : seen !! n = Some (false, elapsed))
    (Hout : duration < elapsed) :
  WaitForN seen duration = (Some false, intervals (S n)).
Proof.
  unfold WaitForN, intervals.
  change (time_Millisecond * 5) with (interval 0).
  rewrite (WaitForN_loop_keeps_waiting n seen duration 0 Hkeep).
  destruct (drop n seen) as [|[c e] rest] eqn:Hd.
  - apply (f_equal (fun l => l !! 0%nat)) in Hd.
    rewrite lookup_drop, Nat.add_0_r, Hcond in Hd. discriminate Hd.
  - apply (f_equal (fun l => l !! 0%nat)) in Hd.
    rewrite lookup_drop, Nat.add_0_r, Hcond in Hd. injection Hd as <- <-.
    cbn [WaitForN_loop fst snd].
    replace (elapsed >? duration) with true
      by (symmetry; rewrite Z.gtb_ltb; now apply Z.ltb_lt).
    cbn [fst snd]. f_equal.
    rewrite seq_S, map_app. reflexivity.
Qed.

Lemma WaitForN_false_witness :
  WaitForN [(false, 30); (false, 31)] 30 =
    (Some false, [time_Millisecond * 5; time_Millisecond * 10]) /\
  WaitForN [(false, 1)] 0 = (Some false, [time_Millisecond * 5]).
Proof.
  split.
  - apply (WaitForN_false [(false, 30); (false, 31)] 30 1 31);
      [|reflexivity | lia].
    intros [|i] Hi; [exists 30 | lia]. split; [reflexivity | lia].
  - apply (WaitForN_false [(false, 1)] 0 0 1); [|reflexivity | lia].
    intros i Hi. lia.
Defined.

(** *** Termination *)

Lemma WaitForN_loop_None (seen : list (bool * Z)) (duration : Z) :
  forall w, fst (WaitForN_loop seen duration w) = None ->
            Forall (fun p => fst p = false /\ snd p <= duration) seen.
Proof.
  induction seen as [|[c e] rest IH]; intros w; simpl; [constructor|].
  destruct c; [discriminate|].
  destruct (e >? duration) eqn:He; [discriminate|].
  specialize (IH (if w <? time_Millisecond * 500 then wrap64 (w * 2) else w)).
  destruct (WaitForN_loop rest duration _) as [r waits]. simpl in *.
  intros Hr. constructor; [|now apply IH].
  split; [reflexivity|]. simpl. rewrite Z.gtb_ltb in He. now apply Z.ltb_ge.
Qed.

Lemma WaitForN_loop_more_turns (seen more : list (bool * Z)) (duration : Z) :
  forall w b, fst (WaitForN_loop seen duration w) = Some b ->
              WaitForN_loop (seen ++ more) duration w = WaitForN_loop seen duration w.
Proof.
  induction seen as [|[c e] rest IH]; intros w b; simpl; [discriminate|].
  destruct c; [reflexivity|].
  destruct (e >? duration); [reflexivity|].
  specialize (IH (if w <? time_Millisecond * 500 then wrap64 (w * 2) else w) b).
  destruct (WaitForN_loop rest duration _) as [r waits]. simpl in *.
  intros Hr. now rewrite (IH Hr).
Qed.

Lemma WaitForN_loop_waits_length (seen : list (bool * Z)) (duration : Z) :
  forall w, (length (snd (WaitForN_loop seen duration w)) <= length seen)%nat.
Proof.
  induction seen as [|[c e] rest IH]; intros w; simpl; [lia|].
  destruct c; [simpl; lia|].
  destruct (e >? duration); [simpl; lia|].
  specialize (IH (if w <? time_Millisecond * 500 then wrap64 (w * 2) else w)).
  destruct (WaitForN_loop rest duration _) as [r waits]. simpl in *. lia.
Qed.

Lemma WaitForN_returns_core (seen : list (bool * Z)) (duration : Z) (n : nat) :
  clock_sound seen ->
  (n < length seen)%nat ->
  duration < total_wait (S n) ->
  exists b,
    fst (WaitForN seen duration) = Some b /\
    (length (snd (WaitForN seen duration)) <= S n)%nat.
Proof.
  intros Hclock Hturns Hout. unfold WaitForN.
  rewrite <- (take_drop (S n) seen).
  destruct (fst (WaitForN_loop (take (S n) seen) duration (time_Millisecond * 5)))
    as [b|] eqn:Hr.
  - exists b.
    rewrite (WaitForN_loop_more_turns _ _ _ _ b Hr). split; [exact Hr|].
    etransitivity; [apply WaitForN_loop_waits_length|].
    rewrite length_take. lia.
  - exfalso. apply WaitForN_loop_None in Hr.
    destruct (lookup_lt_is_Some_2 seen n Hturns) as [[c e] Hn].
    assert (Hin : take (S n) seen !! n = Some (c, e))
      by (rewrite lookup_take_lt by lia; exact Hn).
    rewrite Forall_lookup in Hr. destruct (Hr n (c, e) Hin) as [_ He].
    apply Hclock in Hn. simpl in He. lia.
Qed.

(** X14. [WaitForN] returns: with a clock that does not run behind the
    waits, the loop has returned by the end of the first turn whose
    total of waits exceeds the duration, and it has waited at most once
    per turn. *)
Theorem WaitForN_returns (seen : list (bool * Z)) (duration : Z) (n : nat)
    (Hclock : clock_sound seen)
    (Hturns : (n < length seen)%nat)
    (Hout : duration < total_wait (S n)) :
  exists b,
    fst (WaitForN seen duration) = Some b /\
    (length (snd (WaitForN seen duration)) <= S n)%nat.
Proof. now apply WaitForN_returns_core. Qed.

Lemma WaitForN_returns_witness :
  let seen := [(false, time_Millisecond * 5); (false, time_Millisecond * 15);
               (false, time_Millisecond * 35)] in
  exists b,
    fst (WaitForN seen (time_Millisecond * 20)) = Some b /\
    (length (snd (WaitForN seen (time_Millisecond * 20))) <= 3)%nat.
Proof.
  apply (WaitForN_returns
           [(false, time_Millisecond * 5); (false, time_Millisecond * 15);
            (false, time_Millisecond * 35)] (time_Millisecond * 20) 2).
  - intros [|[|[|i]]] c e Hl; simpl in Hl; try discriminate Hl;
      injection Hl as <- <-; vm_compute; discriminate.
  - simpl. lia.
  - vm_compute. reflexivity.
Defined.

(** X15. [WaitFor] gives up within 22 turns: 10 s are over once the
    loop has waited 22 times (10.235 s), so with a clock that does not
    run behind the waits the condition is evaluated at most 22 times. *)
Theorem WaitFor_returns_within_22_turns (seen : list (bool * Z))
    (Hclock : clock_sound seen)
    (Hturns : (22 <= length seen)%nat) :
  exists b,
    fst (WaitFor seen) = Some b /\
    (length (snd (WaitFor seen)) <= 22)%nat.
Proof.
  unfold WaitFor.
  apply (WaitForN_returns_core seen (time_Second * 10) 21 Hclock); [lia|].
  vm_compute. reflexivity.
Qed.

Lemma WaitFor_returns_within_22_turns_witness :
  fst (WaitFor (map (fun i => (false, total_wait (S i))) (seq 0 22))) = Some false /\
  length (snd (WaitFor (map (fun i => (false, total_wait (S i))) (seq 0 22)))) = 22%nat.
Proof.
  destruct (WaitFor_returns_within_22_turns
              (map (fun i => (false, total_wait (S i))) (seq 0 22)))
    as (b & Hb & Hlen).
  - intros i c e Hl.
    assert (Hi : (i < 22)%nat).
    { apply lookup_lt_Some in Hl. rewrite length_map, length_seq in Hl. exact Hl. }
    rewrite list_lookup_fmap, lookup_seq_lt in Hl by exact Hi.
    injection Hl as <- <-. simpl. lia.
  - rewrite length_map, length_seq. lia.
  - split; vm_compute; reflexivity.
Defined.

(** ** Composing calls on the sinks *)

(** X16. Calls on the encoder sink compose: the success side and the
    failure side are independent, so an [onReady] and an [onFail] give
    the same sink in either order, and failed spans reported in two
    [onFail] calls give the same sink as one call with all of them, the
    counter wrapping as Go's [int] does. *)
Theorem encoderSink_calls_compose {Span shardInMemConfig EncoderErrorCode : Type}
    (es : encoderSink Span) (record : EncodedRecord) (originalSpans : list Span)
    (shard : shardInMemConfig) (failed failed' : list Span)
    (code code' : EncoderErrorCode) :
  onFail (onReady es record originalSpans shard) failed code =
  onReady (onFail es failed code) record originalSpans shard /\
  onFail (onFail es failed code) failed' code' = onFail es (failed ++ failed') code.
Proof.
  split; [reflexivity|].
  unfold onFail. simpl. f_equal.
  - rewrite wrap64_add_r, length_app, Nat2Z.inj_add. f_equal. lia.
  - now rewrite app_assoc.
Qed.

Section client_sink_properties.

Context {Span SendErrorCode : Type}.
Implicit Types (cs : clientSink) (c : client_call Span SendErrorCode)
  (l : list (client_call Span SendErrorCode)).

Lemma run_client_calls_snoc cs l c :
  run_client_calls cs (l ++ [c]) = run_client_call (run_client_calls cs l) c.
Proof. unfold run_client_calls. now rewrite fold_left_app. Qed.

(** X17. The client sink keeps records and responses aligned: after any
    sequence of [onSendResponse] and [onSendFail] calls on a new sink
    the two slices have the same length, the i-th response is the
    answer to the i-th record, in the order of the calls, and the failed
    records are kept apart, in order. *)
Theorem clientSink_aligned l :
  let cs := run_client_calls clientSink_zero l in
  length (getResponseToRecords cs) = length (getResponses cs) /\
  getResponseToRecords cs = map fst (answered l) /\
  getResponses cs = map snd (answered l) /\
  failedRecords cs = failed_records l /\
  (forall i r resp,
     answered l !! i = Some (r, resp) ->
     getResponseToRecords cs !! i = Some r /\ getResponses cs !! i = Some resp).
Proof.
  intros cs. subst cs. unfold getResponseToRecords, getResponses.
  assert (H : responseToRecords (run_client_calls clientSink_zero l) =
                map fst (answered l) /\
              responses (run_client_calls clientSink_zero l) =
                map snd (answered l) /\
              failedRecords (run_client_calls clientSink_zero l) = failed_records l).
  { induction l as [|c l IH] using rev_ind; [repeat split|].
    destruct IH as (I1 & I2 & I3).
    rewrite run_client_calls_snoc. unfold answered, failed_records.
    rewrite !flat_map_app, !map_app.
    destruct c as [r os resp | r os code]; simpl;
      rewrite I1, I2, I3, ?app_nil_r; repeat split. }
  destruct H as (H1 & H2 & H3). rewrite H1, H2, H3.
  split; [now rewrite !length_map|]. repeat split.
  - rewrite list_lookup_fmap, H. reflexivity.
  - rewrite list_lookup_fmap, H. reflexivity.
Qed.

End client_sink_properties.

(** ** Sorting by partition key *)

Lemma string_compare_refl (x : string) : String.compare x x = Eq.
Proof.
  induction x as [|c x IH]; simpl; [reflexivity|].
  unfold Ascii.compare. now rewrite N.compare_refl.
Qed.

Lemma string_compare_lt_trans (x y z : string) :
  String.compare x y = Lt -> String.compare y z = Lt -> String.compare x z = Lt.
Proof.
  revert y z. induction x as [|a x IH]; intros [|b y] [|c z]; simpl;
    try discriminate; try reflexivity.
  unfold Ascii.compare.
  destruct (N.compare_spec (Ascii.N_of_ascii a) (Ascii.N_of_ascii b)) as [Hab|Hab|Hab];
    try discriminate;
  destruct (N.compare_spec (Ascii.N_of_ascii b) (Ascii.N_of_ascii c)) as [Hbc|Hbc|Hbc];
    try discriminate; intros H1 H2.
  - rewrite Hab, Hbc, N.compare_refl. now apply (IH y z).
  - rewrite Hab. now apply N.compare_lt_iff in Hbc as ->.
  - rewrite <- Hbc. now apply N.compare_lt_iff in Hab as ->.
  - assert (Hac : (Ascii.N_of_ascii a < Ascii.N_of_ascii c)%N) by lia.
    now apply N.compare_lt_iff in Hac as ->.
Qed.

Lemma string_ltb_irrefl (x : string) : String.ltb x x = false.
Proof. unfold String.ltb. now rewrite string_compare_refl. Qed.

Lemma string_ltb_asym (x y : string) :
  String.ltb x y = true -> String.ltb y x = false.
Proof.
  unfold String.ltb. rewrite (String.compare_antisym y x).
  destruct (String.compare x y); simpl; congruence.
Qed.

Lemma string_ltb_trans (x y z : string) :
  String.ltb x y = true -> String.ltb y z = true -> String.ltb x z = true.
Proof.
  unfold String.ltb.
  destruct (String.compare x y) eqn:Hxy; try discriminate.
  destruct (String.compare y z) eqn:Hyz; try discriminate.
  now rewrite (string_compare_lt_trans _ _ _ Hxy Hyz).
Qed.

Lemma string_ltb_connected (x y : string) :
  String.ltb x y = false -> String.ltb y x = false -> x = y.
Proof.
  unfold String.ltb. rewrite (String.compare_antisym y x).
  destruct (String.compare x y) eqn:Hxy; simpl; try discriminate.
  intros _ _. now apply String.compare_eq_iff.
Qed.

(** [Less] answers exactly when both indices hold a record. *)
Lemma byPartitionKey_Less_Some (a : list (option EncodedRecord)) (i j : Z) (b : bool) :
  byPartitionKey_Less a i j = Some b <->
  exists x y, slice_index a i = Some (Some x) /\ slice_index a j = Some (Some y) /\
              b = String.ltb (PartitionKey x) (PartitionKey y).
Proof.
  unfold byPartitionKey_Less.
  destruct (slice_index a i) as [[x|]|]; destruct (slice_index a j) as [[y|]|];
    split; try discriminate;
    try (intros (x' & y' & Hx & Hy & _); discriminate).
  - intros [= <-]. eauto.
  - intros (x' & y' & [= <-] & [= <-] & ->). reflexivity.
Qed.

(** X18. [Less] is a strict total order on the partition keys, as
    sorting needs it: no record is less than itself, of two records
    at most one is less than the other, it is transitive, and two
    records of which neither is less than the other have the same key.
    It panics exactly when an index is out of range or a record nil. *)
Theorem byPartitionKey_Less_strict_order (a : list (option EncodedRecord))
    (i j k : Z) :
  byPartitionKey_Less a i i <> Some true /\
  (byPartitionKey_Less a i j = Some true -> byPartitionKey_Less a j i = Some false) /\
  (byPartitionKey_Less a i j = Some true -> byPartitionKey_Less a j k = Some true ->
   byPartitionKey_Less a i k = Some true) /\
  (byPartitionKey_Less a i j = Some false -> byPartitionKey_Less a j i = Some false ->
   exists x y, slice_index a i = Some (Some x) /\ slice_index a j = Some (Some y) /\
               PartitionKey x = PartitionKey y) /\
  (byPartitionKey_Less a i j = None <->
   ~ (exists x y, slice_index a i = Some (Some x) /\ slice_index a j = Some (Some y))).
Proof.
  split; [|split; [|split; [|split]]].
  - intros H. apply byPartitionKey_Less_Some in H as (x & y & Hx & Hy & Hb).
    rewrite Hx in Hy. injection Hy as <-.
    rewrite string_ltb_irrefl in Hb. discriminate.
  - intros H. apply byPartitionKey_Less_Some in H as (x & y & Hx & Hy & Hb).
    apply byPartitionKey_Less_Some. exists y, x.
    split; [exact Hy|]. split; [exact Hx|].
    symmetry. now apply string_ltb_asym.
  - intros H1 H2.
    apply byPartitionKey_Less_Some in H1 as (x & y & Hx & Hy & Hb).
    apply byPartitionKey_Less_Some in H2 as (y' & z & Hy' & Hz & Hb').
    rewrite Hy in Hy'. injection Hy' as <-.
    apply byPartitionKey_Less_Some. exists x, z.
    split; [exact Hx|]. split; [exact Hz|].
    symmetry. now apply (string_ltb_trans _ (PartitionKey y)).
  - intros H1 H2.
    apply byPartitionKey_Less_Some in H1 as (x & y & Hx & Hy & Hb).
    apply byPartitionKey_Less_Some in H2 as (y' & x' & Hy' & Hx' & Hb').
    rewrite Hy in Hy'. injection Hy' as <-.
    rewrite Hx in Hx'. injection Hx' as <-.
    exists x, y. split; [exact Hx|]. split; [exact Hy|].
    now apply string_ltb_connected.
  - split.
    + intros Hn (x & y & Hx & Hy).
      assert (H : byPartitionKey_Less a i j =
                  Some (String.ltb (PartitionKey x) (PartitionKey y))).
      { apply byPartitionKey_Less_Some. eauto. }
      congruence.
    + intros Hn. destruct (byPartitionKey_Less a i j) as [b|] eqn:Hb; [|reflexivity].
      exfalso. apply byPartitionKey_Less_Some in Hb as (x & y & Hx & Hy & _).
      apply Hn. eauto.
Qed.

Lemma byPartitionKey_Less_strict_order_witness :
  byPartitionKey_Less
    [Some record_apple;
     Some {| PartitionKey := "pear"; SpanCount := 1; Payload := [] |};
     Some {| PartitionKey := "plum"; SpanCount := 2; Payload := [] |}] 0 2 = Some true.
Proof.
  exact (proj1 (proj2 (proj2 (byPartitionKey_Less_strict_order
    [Some record_apple;
     Some {| PartitionKey := "pear"; SpanCount := 1; Payload := [] |};
     Some {| PartitionKey := "plum"; SpanCount := 2; Payload := [] |}] 0 1 2)))
    eq_refl eq_refl).
Defined.

Lemma slice_index_Some {A : Type} (a : list A) (i : Z) (x : A) :
  slice_index a i = Some x <-> 0 <= i /\ a !! Z.to_nat i = Some x.
Proof.
  unfold slice_index. destruct (i <? 0) eqn:Hi.
  - apply Z.ltb_lt in Hi. split; [discriminate | lia].
  - apply Z.ltb_ge in Hi. tauto.
Qed.

Lemma slice_index_in_range {A : Type} (a : list A) (i : Z) :
  is_Some (slice_index a i) <-> 0 <= i < Z.of_nat (length a).
Proof.
  split.
  - intros [x Hx]. apply slice_index_Some in Hx as [Hi Hx].
    apply lookup_lt_Some in Hx. lia.
  - intros Hi. destruct (lookup_lt_is_Some_2 a (Z.to_nat i)) as [x Hx]; [lia|].
    exists x. apply slice_index_Some. split; [lia | exact Hx].
Qed.

(** Reading a slice after two writes. *)
Lemma lookup_insert_insert {A : Type} (l : list A) (ni nj n : nat) (x y : A) :
  (ni < length l)%nat -> (nj < length l)%nat ->
  <[nj := y]> (<[ni := x]> l) !! n =
  if decide (n = nj) then Some y
  else if decide (n = ni) then Some x else l !! n.
Proof.
  intros Hi Hj. destruct (decide (n = nj)) as [-> | Hnj].
  - apply list_lookup_insert_eq. now rewrite length_insert.
  - rewrite list_lookup_insert_ne by congruence.
    destruct (decide (n = ni)) as [-> | Hni].
    + now apply list_lookup_insert_eq.
    + apply list_lookup_insert_ne. congruence.
Qed.

(** X19. [Swap] exchanges the records at the two indices and touches
    nothing else: the length is kept, every other index holds what it
    held, the slice is a permutation of what it was, a second [Swap]
    undoes the first, and [Less] on the swapped slice answers as on the
    original with the indices exchanged. It panics exactly when an
    index is out of range, and then the slice is intact. *)
Theorem byPartitionKey_Swap_exchanges (a : list (option EncodedRecord)) (i j : Z) :
  (is_Some (byPartitionKey_Swap a i j) <->
   0 <= i < byPartitionKey_Len a /\ 0 <= j < byPartitionKey_Len a) /\
  (forall a', byPartitionKey_Swap a i j = Some a' ->
     byPartitionKey_Len a' = byPartitionKey_Len a /\
     slice_index a' i = slice_index a j /\
     slice_index a' j = slice_index a i /\
     (forall k, k <> i -> k <> j -> slice_index a' k = slice_index a k) /\
     a' ≡ₚ a /\
     byPartitionKey_Swap a' i j = Some a /\
     byPartitionKey_Less a' i j = byPartitionKey_Less a j i).
Proof.
  unfold byPartitionKey_Len. split.
  - rewrite <- !slice_index_in_range. unfold byPartitionKey_Swap.
    destruct (slice_index a j), (slice_index a i); split;
      try (intros [? [=]]); try (intros [[? [=]] [? [=]]]); eauto.
  - intros a' Hswap. unfold byPartitionKey_Swap in Hswap.
    destruct (slice_index a j) as [aj|] eqn:Hj; [|discriminate].
    destruct (slice_index a i) as [ai|] eqn:Hi; [|discriminate].
    injection Hswap as <-.
    apply slice_index_Some in Hi as [Hi0 Hi], Hj as [Hj0 Hj].
    assert (Hli := lookup_lt_Some _ _ _ Hi). assert (Hlj := lookup_lt_Some _ _ _ Hj).
    set (a' := <[Z.to_nat j := ai]> (<[Z.to_nat i := aj]> a)).
    assert (Hlook : forall n, a' !! n =
              if decide (n = Z.to_nat j) then Some ai
              else if decide (n = Z.to_nat i) then Some aj else a !! n)
      by (intros n; now apply lookup_insert_insert).
    assert (Hlen : length a' = length a)
      by (unfold a'; now rewrite !length_insert).
    assert (Hja : slice_index a j = Some aj) by now apply slice_index_Some.
    assert (Hia : slice_index a i = Some ai) by now apply slice_index_Some.
    assert (Hi' : slice_index a' i = Some aj).
    { apply slice_index_Some. split; [exact Hi0|]. rewrite Hlook.
      destruct (decide (Z.to_nat i = Z.to_nat j)) as [Heq|_]; [congruence|].
      now rewrite decide_True. }
    assert (Hj' : slice_index a' j = Some ai).
    { apply slice_index_Some. split; [exact Hj0|]. rewrite Hlook.
      now rewrite decide_True. }
    split; [now rewrite Hlen|]. split; [exact Hi'|]. split; [exact Hj'|].
    split; [|split; [|split]].
    + intros k Hki Hkj. unfold slice_index.
      destruct (k <? 0) eqn:Hk; [reflexivity|]. apply Z.ltb_ge in Hk.
      rewrite Hlook, !decide_False by lia. reflexivity.
    + apply Permutation_inj. split; [exact Hlen|].
      exists (fun n => if decide (n = Z.to_nat j) then Z.to_nat i
                       else if decide (n = Z.to_nat i) then Z.to_nat j else n).
      split.
      * intros n m. repeat case_decide; intros; subst; congruence.
      * intros n. rewrite Hlook. repeat case_decide; subst; congruence.
    + unfold byPartitionKey_Swap. rewrite Hi', Hj'.
      f_equal. apply list_eq. intros n.
      rewrite lookup_insert_insert by lia. rewrite Hlook.
      repeat case_decide; subst; congruence.
    + unfold byPartitionKey_Less. now rewrite Hi', Hj', Hja, Hia.
Qed.

Lemma byPartitionKey_Swap_exchanges_witness :
  byPartitionKey_Swap
    [Some {| PartitionKey := "pear"; SpanCount := 1; Payload := [] |};
     None; Some record_apple] 0 2 =
  Some [Some record_apple; None;
        Some {| PartitionKey := "pear"; SpanCount := 1; Payload := [] |}] /\
  byPartitionKey_Swap
    [Some record_apple; None;
     Some {| PartitionKey := "pear"; SpanCount := 1; Payload := [] |}] 0 2 =
  Some [Some {| PartitionKey := "pear"; SpanCount := 1; Payload := [] |};
        None; Some record_apple] /\
  byPartitionKey_Swap [Some record_apple] 0 1 = None.
Proof.
  split; [reflexivity|]. split; [|reflexivity].
  exact (proj1 (proj2 (proj2 (proj2 (proj2 (proj2
    (proj2 (byPartitionKey_Swap_exchanges
       [Some {| PartitionKey := "pear"; SpanCount := 1; Payload := [] |};
        None; Some record_apple] 0 2) _ eq_refl))))))).
Defined.

(** ** The options of the OpenCensus receiver *)

Section receiver_options.

Import opencensusreceiver.

Context {TransportCredentials tls_error : Type}.
Variable NewServerTLSFromFile : string -> string -> TransportCredentials + tls_error.

Lemma grpcServerOptions_nil (rOpts : Config) :
  grpcServerOptions (TransportCredentials := TransportCredentials) rOpts = [] <->
  MaxRecvMsgSizeMiB rOpts = 0%N /\ MaxConcurrentStreams rOpts = 0%N /\
  (forall ka, Keepalive rOpts = Some ka ->
     ServerParameters ka = None /\ EnforcementPolicy ka = None).
Proof.
  unfold grpcServerOptions.
  destruct (N.ltb_spec 0 (MaxRecvMsgSizeMiB rOpts)) as [Hm|Hm];
  destruct (N.ltb_spec 0 (MaxConcurrentStreams rOpts)) as [Hc|Hc];
  destruct (Keepalive rOpts) as [[[sp|] [ep|]]|]; simpl;
    split; try discriminate;
    try (intros (H1 & H2 & H3); try lia;
         destruct (H3 _ eq_refl) as [? ?]; discriminate).
  all: try (intros _; reflexivity).
  all: intros _; split; [lia|]; split; [lia|];
    intros x Hx; try discriminate Hx; injection Hx as <-; split; reflexivity.
Qed.

Lemma traceReceiverOptions_nil (rOpts : Config) :
  traceReceiverOptions rOpts = [] <->
  EnableBackPressure rOpts = false /\ MaxServerStreams rOpts = 0%N.
Proof.
  unfold traceReceiverOptions.
  destruct (EnableBackPressure rOpts);
  destruct (N.ltb_spec 0 (MaxServerStreams rOpts)) as [Hs|Hs]; simpl;
    split; try discriminate; try (intros [? ?]; try discriminate; lia).
  - intros _. split; [reflexivity | lia].
  - intros _. reflexivity.
Qed.

Lemma length_pos_iff {A : Type} (l : list A) : (0 <? length l)%nat = false <-> l = [].
Proof. destruct l; simpl; split; (reflexivity || discriminate). Qed.

(** X20. The shape of what [buildOptions] returns: an error exactly
    when TLS credentials are configured and cannot be loaded, and then
    no option at all; otherwise at most three options, the credentials
    first, then the gRPC server options as one group, then the trace
    receiver options as one group; never the no-op option, and never an
    empty group. *)
Theorem buildOptions_shape (rOpts : Config) :
  let opts := fst (buildOptions NewServerTLSFromFile rOpts) in
  let err := snd (buildOptions NewServerTLSFromFile rOpts) in
  (is_Some err <->
   exists creds e, TLSCredentials rOpts = Some creds /\
     NewServerTLSFromFile (CertFile creds) (KeyFile creds) = inr e) /\
  (is_Some err -> opts = []) /\
  (err = None ->
   opts =
     match TLSCredentials rOpts with
     | Some creds =>
         match NewServerTLSFromFile (CertFile creds) (KeyFile creds) with
         | inl c => [WithGRPCServerOptions [grpc_Creds c]]
         | inr _ => []
         end
     | None => []
     end ++
     match grpcServerOptions rOpts with
     | [] => []
     | g => [WithGRPCServerOptions g]
     end ++
     match traceReceiverOptions rOpts with
     | [] => []
     | t => [WithTraceReceiverOptions t]
     end) /\
  (length opts <= 3)%nat /\
  ~ In WithNoopOption opts /\
  ~ In (WithGRPCServerOptions []) opts /\
  ~ In (WithTraceReceiverOptions []) opts.
Proof.
  unfold buildOptions, ToOpenCensusReceiverServerOption.
  destruct (TLSCredentials rOpts) as [creds|] eqn:Htls.
  - destruct (NewServerTLSFromFile (CertFile creds) (KeyFile creds)) as [c|e] eqn:Hload.
    + destruct (grpcServerOptions rOpts) as [|g gs];
        destruct (traceReceiverOptions rOpts) as [|t ts]; simpl;
        (split; [split; [intros [? [=]] |
                         intros (x & e & [= <-] & He); congruence]|]);
        (split; [intros [? [=]]|]); (split; [reflexivity|]);
        (split; [lia|]); repeat split; intros H; simpl in H;
        intuition discriminate.
    + destruct (grpcServerOptions rOpts) as [|g gs];
        destruct (traceReceiverOptions rOpts) as [|t ts]; simpl;
        (split; [split; [intros _; exists creds, e; split; [reflexivity | exact Hload] |
                         intros _; eexists; reflexivity]|]);
        (split; [reflexivity|]); (split; [intros [=]|]);
        (split; [lia|]); repeat split; intros [].
  - destruct (grpcServerOptions rOpts) as [|g gs];
      destruct (traceReceiverOptions rOpts) as [|t ts]; simpl;
      (split; [split; [intros [? [=]] | intros (x & e & [=] & _)]|]);
      (split; [intros [? [=]]|]); (split; [reflexivity|]);
      (split; [lia|]); repeat split; intros H; simpl in H;
      intuition discriminate.
Qed.

(** X21. [buildOptions] gives no option and no error exactly for a
    config in which nothing is set: no TLS credentials, no message size,
    no stream limits, no keepalive parameters or policy, and no back
    pressure. *)
Theorem buildOptions_nothing_configured (rOpts : Config) :
  buildOptions NewServerTLSFromFile rOpts = ([], None) <->
  TLSCredentials rOpts = None /\
  MaxRecvMsgSizeMiB rOpts = 0%N /\ MaxConcurrentStreams rOpts = 0%N /\
  (forall ka, Keepalive rOpts = Some ka ->
     ServerParameters ka = None /\ EnforcementPolicy ka = None) /\
  EnableBackPressure rOpts = false /\ MaxServerStreams rOpts = 0%N.
Proof.
  assert (Hg := grpcServerOptions_nil rOpts).
  assert (Ht := traceReceiverOptions_nil rOpts).
  unfold buildOptions, ToOpenCensusReceiverServerOption.
  split.
  - destruct (TLSCredentials rOpts) as [creds|];
      [destruct (NewServerTLSFromFile (CertFile creds) (KeyFile creds)) as [c|e]|];
      destruct (grpcServerOptions rOpts) as [|g gs];
      destruct (traceReceiverOptions rOpts) as [|t ts]; simpl;
      try discriminate.
    intros _. split; [reflexivity|].
    destruct (proj1 Hg eq_refl) as (H2 & H3 & H4).
    destruct (proj1 Ht eq_refl) as (H5 & H6). auto.
  - intros (H1 & H2 & H3 & H4 & H5 & H6). rewrite H1.
    rewrite (proj2 Hg (conj H2 (conj H3 H4))), (proj2 Ht (conj H5 H6)).
    reflexivity.
Qed.


End receiver_options.

(** Beyond the bounds the sizes wrap: 2^43 MiB is a size below zero,
    2^44 MiB is size 0, and 2^63 streams are a limit below zero. *)
Example receiver_sizes_wrap :
  let cfg m n := {| opencensusreceiver.TLSCredentials := None;
                    opencensusreceiver.Keepalive := None;
                    opencensusreceiver.MaxRecvMsgSizeMiB := m;
                    opencensusreceiver.MaxConcurrentStreams := 0;
                    opencensusreceiver.EnableBackPressure := false;
                    opencensusreceiver.MaxServerStreams := n |} in
  opencensusreceiver.grpcServerOptions (TransportCredentials := unit)
    (cfg (2 ^ 43)%N 0%N) = [opencensusreceiver.grpc_MaxRecvMsgSize (- 2 ^ 63)] /\
  opencensusreceiver.grpcServerOptions (TransportCredentials := unit)
    (cfg (2 ^ 44)%N 0%N) = [opencensusreceiver.grpc_MaxRecvMsgSize 0] /\
  opencensusreceiver.traceReceiverOptions (cfg 0%N (2 ^ 63)%N) =
    [opencensusreceiver.octrace_WithMaxServerStream (- 2 ^ 63)].
Proof. repeat split; vm_compute; reflexivity. Qed.


Lemma buildOptions_shape_witness :
  let load (cert key : string) : string + string :=
    if String.eqb cert "server.crt" then inl key else inr "no such file"%string in
  let cfg creds := {| opencensusreceiver.TLSCredentials := Some creds;
                      opencensusreceiver.Keepalive := None;
                      opencensusreceiver.MaxRecvMsgSizeMiB := 4;
                      opencensusreceiver.MaxConcurrentStreams := 0;
                      opencensusreceiver.EnableBackPressure := true;
                      opencensusreceiver.MaxServerStreams := 0 |} in
  fst (opencensusreceiver.buildOptions load
         (cfg {| opencensusreceiver.CertFile := "missing.crt";
                 opencensusreceiver.KeyFile := "server.key" |})) = [] /\
  opencensusreceiver.buildOptions load
    (cfg {| opencensusreceiver.CertFile := "server.crt";
            opencensusreceiver.KeyFile := "server.key" |}) =
  ([opencensusreceiver.WithGRPCServerOptions
      [opencensusreceiver.grpc_Creds "server.key"%string];
    opencensusreceiver.WithGRPCServerOptions
      [opencensusreceiver.grpc_MaxRecvMsgSize 4194304];
    opencensusreceiver.WithTraceReceiverOptions
      [opencensusreceiver.octrace_WithBackPressure]], None).
Proof.
  intros load cfg. split; [|reflexivity].
  apply (proj1 (proj2 (buildOptions_shape load
           (cfg {| opencensusreceiver.CertFile := "missing.crt";
                   opencensusreceiver.KeyFile := "server.key" |})))).
  eexists. reflexivity.
Defined.

Lemma buildOptions_nothing_configured_witness :
  opencensusreceiver.buildOptions
    (fun cert key : string => @inr string string "no such file"%string)
    {| opencensusreceiver.TLSCredentials := None;
       opencensusreceiver.Keepalive :=
         Some {| opencensusreceiver.ServerParameters := None;
                 opencensusreceiver.EnforcementPolicy := None |};
       opencensusreceiver.MaxRecvMsgSizeMiB := 0;
       opencensusreceiver.MaxConcurrentStreams := 0;
       opencensusreceiver.EnableBackPressure := false;
       opencensusreceiver.MaxServerStreams := 0 |} = ([], None).
Proof.
  apply buildOptions_nothing_configured. simpl.
  repeat (split; [reflexivity|]). split; [|split; reflexivity].
  intros ka [= <-]. split; reflexivity.
Defined.

Lemma clientSink_aligned_witness :
  let ok := Some {| ResultCode := ExportResponse_OK; ShardingConfig_ := None |} in
  let cs := run_client_calls clientSink_zero
              [call_onSendResponse (Span := nat) (SendErrorCode := unit)
                 (Some record_apple) [] ok;
               call_onSendFail None [] tt;
               call_onSendResponse None [] None] in
  getResponseToRecords cs !! 1%nat = Some None /\
  getResponses cs !! 1%nat = Some None.
Proof.
  intros ok.
  exact (proj2 (proj2 (proj2 (proj2 (clientSink_aligned (Span := nat)
    (SendErrorCode := unit)
    [call_onSendResponse (Some record_apple) [] ok;
     call_onSendFail None [] tt;
     call_onSendResponse None [] None]))))
    1%nat None None eq_refl).
Defined.

Lemma serve_stores_accepted_requests_witness :
  length (fst (serve ToLower_ascii (runServer_gRPCServer ∅)
                 [(None, 0%Q, request1); (None, 0%Q, request1)] server12)) = 2%nat.
Proof.
  apply (proj2 (proj2 (proj2 (proj2 (proj2 (proj2
    (serve_stores_accepted_requests ToLower_ascii ∅
       [(None, 0%Q, request1); (None, 0%Q, request1)] server12))))))).
  vm_compute. repeat constructor; discriminate.
Defined.
